(** * conda-tui: the package view-model, the package lister and the
      application shell, embedded from [conda_tui/package.py] and
      [conda_tui/app.py]. *)

From Stdlib Require Import ZArith NArith List Sorted Permutation Lia Ascii String.
From stdpp Require Import base option list gmap strings pretty.

Open Scope N_scope.
Open Scope list_scope.

(** ** Python strings

    A Python [str] is a sequence of Unicode code points; [len] counts code
    points and [<] compares code point by code point. *)

Definition pystr := list N.

Definition lit (s : string) : pystr :=
  map (fun a => N_of_ascii a) (String.list_ascii_of_string s).

Definition len (s : pystr) : nat := length s.

(** [a < b] on [str]. *)
Fixpoint str_lt (a b : pystr) : bool :=
  match a, b with
  | _, [] => false
  | [], _ :: _ => true
  | x :: a', y :: b' =>
      if x <? y then true
      else if y <? x then false
      else str_lt a' b'
  end.

(** Truthiness of a [str]: the empty string is falsy. *)
Definition str_truthy (s : pystr) : bool :=
  match s with [] => false | _ :: _ => true end.

(** Truthiness of an [Optional[str]]: [None] and [""] are falsy. *)
Definition opt_truthy (o : option pystr) : bool :=
  match o with None => false | Some s => str_truthy s end.

(** ** [sorted(xs, key=f)]

    [sorted] is stable and compares keys with [<] only.  The result of a
    stable sort does not depend on the algorithm (see
    [sorted_characterised] below), so the insertion scheme stands for
    CPython's merge strategy. *)

Section Sorted.
Context {A : Type} (key : A -> pystr).

(** Place [x], which preceded every element of [l] in the input, before
    the first element whose key is not smaller than its own. *)
Fixpoint sorted_insert (x : A) (l : list A) : list A :=
  match l with
  | [] => [x]
  | y :: l' =>
      if str_lt (key y) (key x) then y :: sorted_insert x l'
      else x :: y :: l'
  end.

Fixpoint sorted (l : list A) : list A :=
  match l with
  | [] => []
  | x :: l' => sorted_insert x (sorted l')
  end.

(** [x] does not come after [y]: the key of [y] is not smaller. *)
Definition key_le (x y : A) : Prop := str_lt (key y) (key x) = false.

(** The elements of [l] that carry the key [k], in their order in [l]. *)
Definition with_key (k : pystr) (l : list A) : list A :=
  List.filter (fun x => bool_decide (key x = k)) l.
End Sorted.

(** ** Exceptions and results *)

Inductive exn :=
  | AttributeError (attr : string)
  | TypeError
  | JSONDecodeError
  | UnicodeDecodeError
  | IsADirectoryError
  | FileNotFoundError
  | PermissionError
  | ValueError
  | CorruptedEnvironmentError.

Inductive result (A : Type) :=
  | Ok (a : A)
  | Raise (e : exn).
Arguments Ok {A} a.
Arguments Raise {A} e.

Definition is_ok {A} (r : result A) : bool :=
  match r with Ok _ => true | Raise _ => false end.

Definition raises {A} (r : result A) : Prop :=
  exists e, r = Raise e.

#[global] Instance result_ret : MRet result := fun A a => Ok a.

#[global] Instance result_bind : MBind result := fun A B k r =>
  match r with
  | Ok a => k a
  | Raise e => Raise e
  end.

(** ** Rich text

    [rich.text.Text] at the level this program uses it: the plain text, the
    style spans laid over it and the three constructor options. *)

Module Rich.

(** The metadata [render_label] attaches to a label. *)
Record Meta := {
  meta_click : pystr;       (* "@click" *)
  meta_tree_node : N;       (* "tree_node" *)
  meta_cursor : bool        (* "cursor" *)
}.

Inductive Style :=
  | StyleDef (definition : string)
  | StyleMeta (meta : Meta).

Record Span := {
  span_start : nat;
  span_end : nat;
  span_style : Style
}.

Record Text := {
  plain : pystr;
  spans : list Span;
  style : string;
  justify : option string;
  no_wrap : option bool
}.

(** The code points [strip_control_codes] removes: bell, backspace,
    vertical tab, form feed and carriage return. *)
Definition is_control_code (c : N) : bool :=
  (c =? 7) || (c =? 8) || (c =? 11) || (c =? 12) || (c =? 13).

(** [strip_control_codes(s)], applied to every [str] that enters a
    [Text]. *)
Definition strip_control_codes (s : pystr) : pystr :=
  List.filter (fun c => negb (is_control_code c)) s.

(** [Text(s, style=..., justify=..., no_wrap=...)]. *)
Definition mk (s : pystr) (sty : string) (j : option string)
    (nw : option bool) : Text :=
  {| plain := strip_control_codes s; spans := []; style := sty;
     justify := j; no_wrap := nw |}.

Definition lower (a : ascii) : ascii :=
  let n := N_of_ascii a in
  if (65 <=? n) && (n <=? 90) then ascii_of_N (n + 32) else a.

(** [Style.normalize] on a definition whose words are in canonical order:
    the case of the letters is lowered (the colour ["#DB6015"] becomes
    ["#db6015"]). *)
Fixpoint normalize (definition : string) : string :=
  match definition with
  | EmptyString => EmptyString
  | String a rest => String (lower a) (normalize rest)
  end.

(** What [Text.from_markup("[sty]body[/]")] builds for a tag-free [body]:
    the body as plain text under one span carrying the normalised
    [sty]. *)
Definition from_markup_tagged (sty : string) (body : pystr) : Text :=
  {| plain := strip_control_codes body;
     spans := [ {| span_start := 0;
                   span_end := len (strip_control_codes body);
                   span_style := StyleDef (normalize sty) |} ];
     style := ""; justify := None; no_wrap := None |}.

(** Truthiness of a style: the empty definition is falsy, a style made
    from a non-empty metadata dictionary is truthy. *)
Definition style_truthy (sty : Style) : bool :=
  match sty with
  | StyleDef d => negb (String.eqb d "")
  | StyleMeta _ => true
  end.

(** [text.stylize(sty)]: a span over the whole text; nothing is recorded
    for a falsy style or an empty text. *)
Definition stylize (sty : Style) (t : Text) : Text :=
  if style_truthy sty then
    match plain t with
    | [] => t
    | _ :: _ =>
        {| plain := plain t;
           spans := spans t ++ [ {| span_start := 0; span_end := len (plain t);
                                    span_style := sty |} ];
           style := style t; justify := justify t; no_wrap := no_wrap t |}
    end
  else t.

(** [text.apply_meta(meta)]. *)
Definition apply_meta (m : Meta) (t : Text) : Text :=
  stylize (StyleMeta m) t.

(** [text + s] for a [str]: a copy of [text] with [s], stripped of its
    control codes, appended. *)
Definition add_str (t : Text) (s : pystr) : Text :=
  {| plain := plain t ++ strip_control_codes s; spans := spans t;
     style := style t; justify := justify t; no_wrap := no_wrap t |}.

Definition shift (n : nat) (sp : Span) : Span :=
  {| span_start := n + span_start sp; span_end := n + span_end sp;
     span_style := span_style sp |}.

(** [text + other] for a [Text]: a copy of [text]; unless [other] is
    empty, its plain text is appended, its base style, when it has one, is
    laid over the appended part, and its spans are moved behind the old
    text. *)
Definition add_text (t other : Text) : Text :=
  let n := len (plain t) in
  match plain other with
  | [] => t
  | _ :: _ =>
      {| plain := plain t ++ plain other;
         spans := spans t
                  ++ (if style_truthy (StyleDef (style other))
                      then [ {| span_start := n;
                                span_end := n + len (plain other);
                                span_style := StyleDef (style other) |} ]
                      else [])
                  ++ map (shift n) (spans other);
         style := style t; justify := justify t; no_wrap := no_wrap t |}
  end.

Definition covers (sp : Span) (i : nat) : bool :=
  (span_start sp <=? i)%nat && (i <? span_end sp)%nat.

Definition is_bold_style (sty : Style) : bool :=
  match sty with
  | StyleDef d => String.eqb d "bold"
  | StyleMeta _ => false
  end.

(** The character at offset [i] lies under a span whose style is
    ["bold"]. *)
Definition bold_at (t : Text) (i : nat) : bool :=
  existsb (fun sp => covers sp i && is_bold_style (span_style sp)) (spans t).

End Rich.

(** A string that holds none of the control codes [Text] strips. *)
Definition control_free (s : pystr) : Prop :=
  Forall (fun c => Rich.is_control_code c = false) s.

#[global] Instance control_free_dec (s : pystr) : Decision (control_free s).
Proof. unfold control_free. apply _. Defined.

(** ** Python values

    The values a record attribute or a decoded JSON document can hold. *)

#[warnings="-register-all"]
Inductive value :=
  | VNone
  | VBool (b : bool)
  | VInt (z : Z)
  | VFloat (bits : N)
  | VStr (s : pystr)
  | VList (items : list value)
  | VDict (entries : list (pystr * value))
  | VPath (path : pystr)
  | VObject (repr : string).

(** [os.fspath(v)] where it is defined: a [str] and a path-like object
    give a path, anything else is refused. *)
Definition fspath (v : value) : option pystr :=
  match v with
  | VStr s => Some s
  | VPath s => Some s
  | _ => None
  end.

(** [d.get(k, default)]; a [dict] is kept as its entries, one per key. *)
Fixpoint dict_get (k : pystr) (entries : list (pystr * value))
    (default : value) : value :=
  match entries with
  | [] => default
  | (k', v) :: rest =>
      if bool_decide (k' = k) then v else dict_get k rest default
  end.

(** ** The world outside the process

    What the program reads and never writes: conda's metadata stores, the
    [info/about.json] sidecar of each extracted package, the generator
    behind [random.random] and the logo asset. *)

(** conda's [PrefixRecord]: [name] and [version] are required string
    fields; [rec_fields] holds every other attribute the record answers
    to. *)
Record PrefixRecord := {
  rec_name : pystr;
  rec_version : pystr;
  rec_fields : gmap string value
}.

(** [getattr(record, item)]. *)
Definition getattr (r : PrefixRecord) (item : string) : result value :=
  if String.eqb item "name" then Ok (VStr (rec_name r))
  else if String.eqb item "version" then Ok (VStr (rec_version r))
  else match rec_fields r !! item with
       | Some v => Ok v
       | None => Raise (AttributeError item)
       end.

Definition hasattr (r : PrefixRecord) (item : string) : bool :=
  is_ok (getattr r item).

(** What is found at a path.  A regular file is kept as what
    [json.load] makes of it once opened: the decoded document, or the
    exception raised on malformed or undecodable content. *)
Inductive fs_entry :=
  | Missing
  | Directory
  | RegularFile (loaded : result value).

Record World := {
  (** the entry at [Path(package_dir, "info", "about.json")] *)
  about_json : pystr -> fs_entry;
  (** [PrefixData(prefix, pip_interop_enabled=True).iter_records()] *)
  iter_records : pystr -> result (list PrefixRecord);
  (** the successive values [k] of [random.random() = k / 2**53] *)
  random_draws : nat -> N;
  (** [open(HERE/resources/ascii-logo-80.txt).read()] *)
  logo_asset : result pystr
}.

(** [x > 0.8] for [x = k / 2**53]: the double nearest to [0.8] is
    [7205759403792794 / 2**53]. *)
Definition gt_0_8 (k : N) : bool := 7205759403792794 <? k.

(** ** The package view-model *)

Module Package.

(** The instance dictionary: the two attributes set by [__init__] and
    the slot [cached_property] fills on the first successful read of
    [description]. *)
Record t := {
  _record : PrefixRecord;
  _update_available : bool;
  description_slot : option value
}.

Definition __init__ (record : PrefixRecord) (draw : N) : t :=
  {| _record := record;
     _update_available := gt_0_8 draw;
     description_slot := None |}.

Definition __getattr__ (self : t) (item : string) : result value :=
  getattr (_record self) item.

Definition update_available (self : t) : bool := _update_available self.

Definition set_update_available (self : t) (v : bool) : t :=
  {| _record := _record self;
     _update_available := v;
     description_slot := description_slot self |}.

Definition UPWARDS_ARROW : N := 0x2191.
Definition HEAVY_CHECK_MARK : N := 0x2714.

Definition _get_update_status_icon (update_available : bool) : Rich.Text :=
  if update_available
  then Rich.from_markup_tagged "bold #DB6015" [UPWARDS_ARROW]
  else Rich.from_markup_tagged "bold #43b049" [HEAVY_CHECK_MARK].

(** The glyph [_get_update_status_icon] shows for a flag. *)
Definition glyph (update_available : bool) : N :=
  if update_available then UPWARDS_ARROW else HEAVY_CHECK_MARK.

(** [self.version] is not found on the view-model and goes through
    [__getattr__]. *)
Definition version (self : t) : pystr := rec_version (_record self).
Definition name (self : t) : pystr := rec_name (_record self).

Definition status (self : t) : Rich.Text :=
  Rich.add_str
    (Rich.add_str (_get_update_status_icon (update_available self)) (lit " "))
    (version self).

(** The body of [description]. *)
Definition description (w : World) (self : t) : result value :=
  match __getattr__ self "extracted_package_dir" with
  | Raise (AttributeError _) => Ok (VStr [])
  | Raise e => Raise e
  | Ok v =>
      match fspath v with
      | Some package_dir =>
          match about_json w package_dir with
          | Missing => Ok (VStr [])
          | Directory => Raise IsADirectoryError
          | RegularFile loaded =>
              doc ← loaded;
              match doc with
              | VDict entries => Ok (dict_get (lit "summary") entries (VStr []))
              | _ => Raise (AttributeError "get")
              end
          end
      | None => Raise TypeError
      end
  end.

(** Reading [self.description]: [cached_property] answers from the
    instance dictionary once it holds a value and stores the value the
    body returns; an [AttributeError] leaving the body sends the read to
    [__getattr__], any other exception leaves the read. *)
Definition read_description (w : World) (self : t) : t * result value :=
  match description_slot self with
  | Some v => (self, Ok v)
  | None =>
      match description w self with
      | Ok v =>
          ({| _record := _record self;
              _update_available := _update_available self;
              description_slot := Some v |}, Ok v)
      | Raise (AttributeError _) => (self, __getattr__ self "description")
      | Raise e => (self, Raise e)
      end
  end.

(** What reading an attribute of a view-model yields. *)
Inductive attr :=
  | ARecord (r : PrefixRecord)
  | AValue (v : value)
  | AText (text : Rich.Text)
  | AMember (member : string).

(** The names the class body and [__init__] define. *)
Definition own_names : list string :=
  [ "_record"; "_update_available"; "__init__"; "__getattr__";
    "update_available"; "status"; "_get_update_status_icon";
    "description" ]%string.

(** The names every instance answers to through [object] and the class
    machinery. *)
Definition object_names : list string :=
  [ "__class__"; "__delattr__"; "__dict__"; "__dir__"; "__doc__";
    "__eq__"; "__format__"; "__ge__"; "__getattribute__"; "__getstate__";
    "__gt__"; "__hash__"; "__init_subclass__"; "__le__"; "__lt__";
    "__module__"; "__ne__"; "__new__"; "__reduce__"; "__reduce_ex__";
    "__repr__"; "__setattr__"; "__sizeof__"; "__str__";
    "__subclasshook__"; "__weakref__" ]%string.

Definition defined (item : string) : bool :=
  bool_decide (item ∈ own_names ++ object_names).

(** [getattr(self, item)]: the ordinary lookup first, [__getattr__] for a
    name it does not find. *)
Definition read (w : World) (self : t) (item : string) : t * result attr :=
  if String.eqb item "_record" then (self, Ok (ARecord (_record self)))
  else if String.eqb item "_update_available"
    then (self, Ok (AValue (VBool (_update_available self))))
  else if String.eqb item "update_available"
    then (self, Ok (AValue (VBool (update_available self))))
  else if String.eqb item "status" then (self, Ok (AText (status self)))
  else if String.eqb item "description" then
    let '(self', r) := read_description w self in
    (self', v ← r; Ok (AValue v))
  else if defined item then (self, Ok (AMember item))
  else (self, v ← __getattr__ self item; Ok (AValue v)).

End Package.

(** ** Environments *)

(** Modelled from the spec: [conda_tui/environment.py] is not part of the
    sources at hand.  An environment has an optional display [name] and an
    optional [path] (the synthetic root has none), and two environments are
    equal when both agree. *)
Record Environment := {
  env_name : option pystr;
  env_path : option pystr
}.

(** [Environment()], the payload of the root node. *)
Definition Environment_root : Environment :=
  {| env_name := None; env_path := None |}.

#[global] Instance Environment_eq_dec : EqDecision Environment.
Proof. solve_decision. Defined.

#[global] Instance Environment_countable : Countable Environment.
Proof.
  refine (inj_countable'
            (fun e => (env_name e, env_path e))
            (fun p => {| env_name := fst p; env_path := snd p |}) _).
  intros []; reflexivity.
Defined.

(** ** The process state

    The objects and caches that live as long as the process, and two
    ledgers kept for the statements below: every invocation of the lister
    and every read of a metadata store (with its outcome). *)
Record Process := {
  (** the list objects the lister has built; the address of a list is its
      position *)
  heap : list (list Package.t);
  (** [functools.cache] of [list_packages_for_environment] *)
  lister_cache : gmap Environment nat;
  (** how many values of [random.random] have been consumed *)
  drawn : nat;
  lister_calls : list Environment;
  store_reads : list (Environment * bool);
  (** [functools.lru_cache] of [get_logo] *)
  logo_cache : option Rich.Text;
  logo_reads : nat
}.

Definition Process_init : Process :=
  {| heap := []; lister_cache := ∅; drawn := 0; lister_calls := [];
     store_reads := []; logo_cache := None; logo_reads := 0 |}.

Definition log_call (env : Environment) (s : Process) : Process :=
  {| heap := heap s; lister_cache := lister_cache s; drawn := drawn s;
     lister_calls := lister_calls s ++ [env];
     store_reads := store_reads s;
     logo_cache := logo_cache s; logo_reads := logo_reads s |}.

Definition log_read (env : Environment) (n : nat) (good : bool)
    (s : Process) : Process :=
  {| heap := heap s; lister_cache := lister_cache s; drawn := drawn s + n;
     lister_calls := lister_calls s;
     store_reads := store_reads s ++ [(env, good)];
     logo_cache := logo_cache s; logo_reads := logo_reads s |}.

(** A new list object; its address is returned with the state. *)
Definition alloc (l : list Package.t) (s : Process) : Process * nat :=
  ({| heap := heap s ++ [l]; lister_cache := lister_cache s;
      drawn := drawn s; lister_calls := lister_calls s;
      store_reads := store_reads s;
      logo_cache := logo_cache s; logo_reads := logo_reads s |},
   length (heap s)).

Definition remember (env : Environment) (a : nat) (s : Process) : Process :=
  {| heap := heap s; lister_cache := <[env := a]> (lister_cache s);
     drawn := drawn s; lister_calls := lister_calls s;
     store_reads := store_reads s;
     logo_cache := logo_cache s; logo_reads := logo_reads s |}.

(** ** Measures on the ledgers *)

(** [p] does not come after [q] by name. *)
Definition name_le : Package.t -> Package.t -> Prop := key_le Package.name.

(** How often the metadata store of [env] has been read. *)
Definition reads_of (env : Environment) (s : Process) : nat :=
  length (List.filter (fun r => bool_decide (r.1 = env)) (store_reads s)).

(** How often a read of the metadata store of [env] has succeeded. *)
Definition good_reads_of (env : Environment) (s : Process) : nat :=
  length (List.filter (fun r => bool_decide (r = (env, true))) (store_reads s)).

(** ** The package lister *)

Section Lister.
(** [str(env.prefix)], defined with [Environment]. *)
Variable prefix : Environment -> pystr.

(** [[Package(record) for record in ...]]: one draw per package, in
    order. *)
Fixpoint wrap (w : World) (pos : nat) (records : list PrefixRecord)
    : list Package.t :=
  match records with
  | [] => []
  | r :: rest => Package.__init__ r (random_draws w pos) :: wrap w (S pos) rest
  end.

(** The body of [list_packages_for_environment]. *)
Definition list_packages (w : World) (s : Process) (env : Environment)
    : Process * result nat :=
  match iter_records w (prefix env) with
  | Raise e => (log_read env 0 false s, Raise e)
  | Ok records =>
      let packages := wrap w (drawn s) records in
      let '(s', a) :=
        alloc (sorted Package.name packages)
              (log_read env (length records) true s) in
      (s', Ok a)
  end.

(** [list_packages_for_environment] under [@cache]: a remembered
    environment is answered from the cache; otherwise the body runs and
    its result is remembered, unless it raises. *)
Definition list_packages_for_environment (w : World) (s : Process)
    (env : Environment) : Process * result nat :=
  let s := log_call env s in
  match lister_cache s !! env with
  | Some a => (s, Ok a)
  | None =>
      match list_packages w s env with
      | (s', Ok a) => (remember env a s', Ok a)
      | (s', Raise e) => (s', Raise e)
      end
  end.

(** A run of lister calls, one per environment of [envs], in order. *)
Fixpoint run (w : World) (s : Process) (envs : list Environment) : Process :=
  match envs with
  | [] => s
  | env :: rest => run w (list_packages_for_environment w s env).1 rest
  end.

(** What holds of every state the lister leaves behind: a remembered
    environment has a readable store and its list is the sorted list of the
    packages wrapped around the records of the store; the store of an environment has been read
    with success once if it is remembered and never otherwise. *)
Record lister_inv (w : World) (s : Process) : Prop := {
  inv_cached : forall env a,
    lister_cache s !! env = Some a ->
    exists records pos,
      iter_records w (prefix env) = Ok records
      /\ heap s !! a = Some (sorted Package.name (wrap w pos records));
  inv_reads : forall env,
    good_reads_of env s
    = match lister_cache s !! env with Some _ => 1%nat | None => 0%nat end
}.

End Lister.

(** ** The logo *)

Definition NEWLINE : N := 10.
Definition SPACE : N := 32.
Definition ZERO_WIDTH_SPACE : N := 0x200B.

(** [s.split("\n")]: never empty. *)
Fixpoint split_lines (s : pystr) : list pystr :=
  match s with
  | [] => [[]]
  | c :: s' =>
      if c =? NEWLINE then [] :: split_lines s'
      else match split_lines s' with
           | [] => [[c]]
           | l :: ls => (c :: l) :: ls
           end
  end.

(** ["\n".join(ls)]. *)
Fixpoint join_lines (ls : list pystr) : pystr :=
  match ls with
  | [] => []
  | [l] => l
  | l :: ls' => l ++ NEWLINE :: join_lines ls'
  end.

(** [max(ns)]; raises on an empty sequence. *)
Definition py_max (ns : list nat) : result nat :=
  match ns with
  | [] => Raise ValueError
  | n :: ns' => Ok (fold_left Nat.max ns' n)
  end.

(** [f"{line:{width}s}"]: [line] followed by spaces up to [width]
    characters; a longer [line] is left as it is. *)
Definition format_s (line : pystr) (width : nat) : pystr :=
  line ++ repeat SPACE (width - len line).

Definition pad_line (max_line_length : nat) (line : pystr) : pystr :=
  [ZERO_WIDTH_SPACE] ++ format_s line max_line_length ++ [ZERO_WIDTH_SPACE].

(** The body of [get_logo], given the text read from the asset. *)
Definition build_logo (text : pystr) : result Rich.Text :=
  let lines := split_lines text in
  max_line_length ← py_max (map len lines);
  let padded_lines := map (pad_line max_line_length) lines in
  Ok (Rich.mk (join_lines padded_lines) "green" (Some "center"%string) None).

Definition set_logo (t : option Rich.Text) (s : Process) : Process :=
  {| heap := heap s; lister_cache := lister_cache s; drawn := drawn s;
     lister_calls := lister_calls s; store_reads := store_reads s;
     logo_cache := t; logo_reads := S (logo_reads s) |}.

(** [get_logo] under [@lru_cache()]: the first call that returns fills the
    cache; a call that raises leaves it empty. *)
Definition get_logo (w : World) (s : Process) : Process * result Rich.Text :=
  match logo_cache s with
  | Some t => (s, Ok t)
  | None =>
      match text ← logo_asset w; build_logo text with
      | Ok t => (set_logo (Some t) s, Ok t)
      | Raise e => (set_logo None s, Raise e)
      end
  end.

(** Width in terminal cells, over the width [char_width] of one
    character. *)
Definition cell_len (char_width : N -> nat) (s : pystr) : nat :=
  list_sum (map char_width s).

(** A character of an ASCII-art asset: printable ASCII or a line break. *)
Definition ascii_art_char (c : N) : Prop := c = NEWLINE \/ (32 <= c <= 126).

#[global] Instance ascii_art_char_dec (c : N) : Decision (ascii_art_char c).
Proof. unfold ascii_art_char. apply _. Defined.

(** [n] further calls of [get_logo]. *)
Definition get_logo_again (w : World) (n : nat) (s : Process) : Process :=
  Nat.iter n (fun s => (get_logo w s).1) s.

(** ** The environment tree *)

(** A node of the tree control: its identifier, its raw label (a [str] or
    a [Text]), its payload and whether the cursor is on it. *)
Record TreeNode := {
  node_id : N;
  node_label : pystr + Rich.Text;
  node_data : Environment;
  node_is_cursor : bool
}.

Definition BLACK_CIRCLE : N := 0x25CF.
Definition WHITE_CIRCLE : N := 0x25CB.

(** [a or b] on optional strings. *)
Definition opt_or (a b : option pystr) : option pystr :=
  if opt_truthy a then a else b.

(** The text an optional string gives to [Text(...)]; [or node.label] has
    already replaced every falsy value. *)
Definition or_label (a : option pystr) (label : pystr) : pystr :=
  match a with
  | Some s => if str_truthy s then s else label
  | None => label
  end.

Section Tree.
(** [env.rpath], defined with [Environment]. *)
Variable rpath : Environment -> option pystr.

(** The text of the label built for a node whose raw label is a
    [str]. *)
Definition label_text (node : TreeNode) (raw : pystr) (is_hover : bool)
    : pystr :=
  or_label
    (if is_hover then rpath (node_data node)
     else opt_or (env_name (node_data node)) (rpath (node_data node)))
    raw.

(** The label before the icon is put in front: the raw [Text] label
    itself, or a fresh [Text]; bold when hovered. *)
Definition label_of (node : TreeNode) (is_hover : bool) : Rich.Text :=
  let label :=
    match node_label node with
    | inr text => text
    | inl raw => Rich.mk (label_text node raw is_hover) "" None (Some true)
    end in
  if is_hover then Rich.stylize (Rich.StyleDef "bold") label else label.

Definition icon (expanded : bool) : N :=
  if expanded then BLACK_CIRCLE else WHITE_CIRCLE.

(** [render_label]: the rendered label, and the node afterwards (a raw
    [Text] label is stylized in place). *)
Definition render_label (node : TreeNode)
    (expanded is_cursor is_hover has_focus : bool) : Rich.Text * TreeNode :=
  let meta :=
    {| Rich.meta_click :=
         lit "click_label(" ++ lit (pretty (node_id node)) ++ lit ")";
       Rich.meta_tree_node := node_id node;
       Rich.meta_cursor := node_is_cursor node |} in
  let label := label_of node is_hover in
  let icon_label :=
    Rich.add_text
      (Rich.add_str (Rich.mk [icon expanded] "" None (Some true)) (lit " "))
      label in
  (Rich.apply_meta meta icon_label,
   match node_label node with
   | inr _ =>
       {| node_id := node_id node; node_label := inr label;
          node_data := node_data node;
          node_is_cursor := node_is_cursor node |}
   | inl _ => node
   end).

End Tree.

(** ** The application shell *)

(** What the right pane shows. *)
Inductive Pane :=
  | LogoPane (logo : Rich.Text)
  | TablePane (packages : nat).

Record App := {
  proc : Process;
  package_list : option Pane;
  expanded_nodes : gset N
}.

Section Shell.
Variable prefix : Environment -> pystr.

(** [show_package_table]. *)
Definition show_package_table (w : World) (app : App) (node : TreeNode)
    : App * result unit :=
  match list_packages_for_environment prefix w (proc app) (node_data node) with
  | (s, Ok packages) =>
      ({| proc := s; package_list := Some (TablePane packages);
          expanded_nodes := expanded_nodes app |}, Ok tt)
  | (s, Raise e) =>
      ({| proc := s; package_list := package_list app;
          expanded_nodes := expanded_nodes app |}, Raise e)
  end.

(** [await node.expand()]. *)
Definition expand (node : TreeNode) (app : App) : App :=
  {| proc := proc app; package_list := package_list app;
     expanded_nodes := {[ node_id node ]} ∪ expanded_nodes app |}.

(** [handle_tree_click], for a click on [node]. *)
Definition handle_tree_click (w : World) (app : App) (node : TreeNode)
    : App * result unit :=
  if negb (opt_truthy (env_path (node_data node))) then (app, Ok tt)
  else
    match show_package_table w app node with
    | (app', Ok _) => (expand node app', Ok tt)
    | (app', Raise e) => (app', Raise e)
    end.

(** [action_display_logo]. *)
Definition action_display_logo (w : World) (app : App) : App * result unit :=
  match get_logo w (proc app) with
  | (s, Ok logo) =>
      ({| proc := s; package_list := Some (LogoPane logo);
          expanded_nodes := expanded_nodes app |}, Ok tt)
  | (s, Raise e) =>
      ({| proc := s; package_list := package_list app;
          expanded_nodes := expanded_nodes app |}, Raise e)
  end.

End Shell.

(** ** A sample installation

    Concrete data the statements below are evaluated on. *)

Module Sample.

Definition numpy_dir : pystr := lit "/opt/conda/pkgs/numpy-1.26.4".
Definition zlib_dir : pystr := lit "/opt/conda/pkgs/zlib-1.2.13".

Definition numpy : PrefixRecord :=
  {| rec_name := lit "numpy"; rec_version := lit "1.26.4";
     rec_fields :=
       {[ "channel"%string := VStr (lit "defaults");
          "extracted_package_dir"%string := VStr numpy_dir ]} |}.

Definition zlib : PrefixRecord :=
  {| rec_name := lit "zlib"; rec_version := lit "1.2.13";
     rec_fields :=
       {[ "channel"%string := VStr (lit "defaults");
          "extracted_package_dir"%string := VStr zlib_dir ]} |}.

(** A package installed by pip: no extracted package directory. *)
Definition requests : PrefixRecord :=
  {| rec_name := lit "requests"; rec_version := lit "2.31.0";
     rec_fields := {[ "channel"%string := VStr (lit "pypi") ]} |}.

Definition base : Environment :=
  {| env_name := Some (lit "base"); env_path := Some (lit "/opt/conda") |}.

Definition broken : Environment :=
  {| env_name := Some (lit "broken"); env_path := Some (lit "/srv/broken") |}.

Definition locked : Environment :=
  {| env_name := None; env_path := Some (lit "/srv/locked") |}.

(** [str(env.prefix)] taken to be the path. *)
Definition prefix (env : Environment) : pystr :=
  default [] (env_path env).

(** [env.rpath] taken to be the path. *)
Definition rpath (env : Environment) : option pystr := env_path env.

Definition logo : pystr := lit "  /\
 /  \
/ conda \".

(** The sidecar of numpy is cut short (it holds a lone opening brace),
    the sidecar of zlib is a JSON object with a summary, and the
    metadata store of [broken] is corrupt. *)
Definition world : World :=
  {| about_json := fun d =>
       if bool_decide (d = numpy_dir) then RegularFile (Raise JSONDecodeError)
       else if bool_decide (d = zlib_dir)
         then RegularFile
                (Ok (VDict [(lit "summary", VStr (lit "compression library"))]))
       else Missing;
     iter_records := fun p =>
       if bool_decide (p = lit "/opt/conda") then Ok [zlib; numpy; requests]
       else if bool_decide (p = lit "/srv/broken")
         then Raise CorruptedEnvironmentError
       else if bool_decide (p = lit "/srv/locked") then Raise PermissionError
       else Ok [];
     random_draws := fun n => if Nat.even n then 0 else 9007199254740991;
     logo_asset := Ok logo |}.

Definition char_width (c : N) : nat :=
  if c =? ZERO_WIDTH_SPACE then 0%nat else 1%nat.

Definition root_node : TreeNode :=
  {| node_id := 0; node_label := inl (lit "envs");
     node_data := Environment_root; node_is_cursor := false |}.

Definition base_node : TreeNode :=
  {| node_id := 1; node_label := inl (lit "base");
     node_data := base; node_is_cursor := true |}.

Definition broken_node : TreeNode :=
  {| node_id := 2; node_label := inl (lit "broken");
     node_data := broken; node_is_cursor := false |}.

Definition app : App :=
  {| proc := Process_init; package_list := None; expanded_nodes := ∅ |}.

End Sample.

(** ** The tree control

    The state [EnvironmentTree] adds to the tree control and the
    memoisation [@lru_cache] puts in front of [render_label]. *)

(** The arguments [render_label] is memoised on: the node, which hashes by
    identity and is stood for by its identifier, and the four flags. *)
Definition RenderKey : Type := N * bool * bool * bool * bool.

Definition lru_maxsize : nat := 128.

(** The memo of an [lru_cache]: the most recently used entry first. *)
Fixpoint lru_find (k : RenderKey) (cache : list (RenderKey * Rich.Text))
    : option Rich.Text :=
  match cache with
  | [] => None
  | (k', t) :: rest => if bool_decide (k' = k) then Some t else lru_find k rest
  end.

Fixpoint lru_drop (k : RenderKey) (cache : list (RenderKey * Rich.Text))
    : list (RenderKey * Rich.Text) :=
  match cache with
  | [] => []
  | (k', t) :: rest =>
      if bool_decide (k' = k) then rest else (k', t) :: lru_drop k rest
  end.

(** A hit makes its entry the most recent one. *)
Definition lru_touch (k : RenderKey) (t : Rich.Text)
    (cache : list (RenderKey * Rich.Text)) : list (RenderKey * Rich.Text) :=
  (k, t) :: lru_drop k cache.

(** A miss adds an entry; a full memo gives up its least recent one. *)
Definition lru_store (k : RenderKey) (t : Rich.Text)
    (cache : list (RenderKey * Rich.Text)) : list (RenderKey * Rich.Text) :=
  take lru_maxsize ((k, t) :: cache).

Record EnvironmentTree := {
  has_focus : bool;
  (** [TreeControl.hover_node] *)
  hover_node : option N;
  (** [functools.lru_cache] of [render_label] *)
  label_cache : list (RenderKey * Rich.Text)
}.

(** [EnvironmentTree()]. *)
Definition EnvironmentTree_init : EnvironmentTree :=
  {| has_focus := false; hover_node := None; label_cache := [] |}.

(** The root node [TreeControl.__init__("envs", data=Environment())]
    creates. *)
Definition EnvironmentTree_root : TreeNode :=
  {| node_id := 0; node_label := inl (lit "envs");
     node_data := Environment_root; node_is_cursor := false |}.

Definition on_focus (tree : EnvironmentTree) : EnvironmentTree :=
  {| has_focus := true; hover_node := hover_node tree;
     label_cache := label_cache tree |}.

Definition on_blur (tree : EnvironmentTree) : EnvironmentTree :=
  {| has_focus := false; hover_node := hover_node tree;
     label_cache := label_cache tree |}.

Definition set_label_cache (cache : list (RenderKey * Rich.Text))
    (tree : EnvironmentTree) : EnvironmentTree :=
  {| has_focus := has_focus tree; hover_node := hover_node tree;
     label_cache := cache |}.

Section TreeControl.
Variable rpath : Environment -> option pystr.

(** [render_label] under [@lru_cache]: a remembered key is answered from
    the memo and the body does not run; otherwise the body runs and its
    result is remembered. *)
Definition render_label_cached (tree : EnvironmentTree) (node : TreeNode)
    (expanded is_cursor is_hover has_focus : bool)
    : EnvironmentTree * (Rich.Text * TreeNode) :=
  let k := (node_id node, expanded, is_cursor, is_hover, has_focus) in
  match lru_find k (label_cache tree) with
  | Some t => (set_label_cache (lru_touch k t (label_cache tree)) tree, (t, node))
  | None =>
      let r := render_label rpath node expanded is_cursor is_hover has_focus in
      (set_label_cache (lru_store k r.1 (label_cache tree)) tree, r)
  end.

(** [render_node]; [opened] holds the identifiers of the expanded
    nodes. *)
Definition render_node (tree : EnvironmentTree) (opened : gset N)
    (node : TreeNode) : EnvironmentTree * (Rich.Text * TreeNode) :=
  render_label_cached tree node
    (bool_decide (node_id node ∈ opened))
    (node_is_cursor node)
    (bool_decide (hover_node tree = Some (node_id node)))
    (has_focus tree).

(** The node registered under an identifier, as the cursor flag [c] shows
    it. *)
Definition with_cursor (c : bool) (node : TreeNode) : TreeNode :=
  {| node_id := node_id node; node_label := node_label node;
     node_data := node_data node; node_is_cursor := c |}.

(** Every remembered label is what the body gives for the node registered
    under the identifier of its key. *)
Definition cache_sound (nodes : gmap N TreeNode)
    (cache : list (RenderKey * Rich.Text)) : Prop :=
  forall id e c h f t,
    ((id, e, c, h, f), t) ∈ cache ->
    exists node,
      nodes !! id = Some node
      /\ t = (render_label rpath (with_cursor c node) e c h f).1.

(** The nodes of a tree whose labels are strings, each under its own
    identifier. *)
Definition string_labelled (nodes : gmap N TreeNode) : Prop :=
  forall id node,
    nodes !! id = Some node ->
    node_id node = id /\ exists raw, node_label node = inl raw.

End TreeControl.

Module SampleTree.

Definition nodes : gmap N TreeNode :=
  {[ 0 := Sample.root_node; 1 := Sample.base_node; 2 := Sample.broken_node ]}.

(** A raw label that is a [Text]. *)
Definition text_node : TreeNode :=
  {| node_id := 7;
     node_label := inr (Rich.mk (lit "scratch") "" None None);
     node_data := Sample.base; node_is_cursor := false |}.

(** The store of [/srv/locked] became readable, and the sidecar of numpy
    was repaired. *)
Definition repaired : World :=
  {| about_json := fun d =>
       if bool_decide (d = Sample.numpy_dir)
       then RegularFile (Ok (VDict [(lit "summary", VStr (lit "arrays"))]))
       else about_json Sample.world d;
     iter_records := iter_records Sample.world;
     random_draws := random_draws Sample.world;
     logo_asset := Raise FileNotFoundError |}.

(** A record that has a [description] of its own and whose sidecar holds a
    JSON array. *)
Definition odd_dir : pystr := lit "/opt/conda/pkgs/odd-0.1".

Definition odd : PrefixRecord :=
  {| rec_name := lit "odd"; rec_version := lit "0.1";
     rec_fields :=
       {[ "description"%string := VStr (lit "from the record");
          "extracted_package_dir"%string := VStr odd_dir ]} |}.

Definition odd_world : World :=
  {| about_json := fun d =>
       if bool_decide (d = odd_dir) then RegularFile (Ok (VList []))
       else Missing;
     iter_records := fun _ => Ok [odd];
     random_draws := fun _ => 0;
     logo_asset := Ok (lit "logo") |}.

(** A record whose version ends in a bell character. *)
Definition belled : PrefixRecord :=
  {| rec_name := lit "belled"; rec_version := lit "1.0" ++ [7];
     rec_fields := ∅ |}.

(** A node whose raw label holds a bell character and whose environment
    has neither name nor path. *)
Definition belled_node : TreeNode :=
  {| node_id := 8; node_label := inl ([97; 7; 98]);
     node_data := Environment_root; node_is_cursor := false |}.

(** An asset with a bell character in its first line. *)
Definition belled_logo : pystr := [97; 7; 98; 10; 99; 100].

(** The environment of [Sample.base] under another name. *)
Definition alias : Environment :=
  {| env_name := Some (lit "alias"); env_path := Some (lit "/opt/conda") |}.

End SampleTree.

(** * Properties *)

(** ** The order on strings *)

Lemma str_lt_irrefl (a : pystr) : str_lt a a = false.
Proof.
  induction a as [|x a IH]; simpl; [reflexivity|].
  rewrite N.ltb_irrefl. exact IH.
Qed.

Lemma str_lt_trans (a b c : pystr) :
  str_lt a b = true -> str_lt b c = true -> str_lt a c = true.
Proof.
  revert b c. induction a as [|x a IH]; intros [|y b] [|z c]; simpl;
    try congruence.
  destruct (N.ltb_spec x y), (N.ltb_spec y x), (N.ltb_spec y z),
    (N.ltb_spec z y), (N.ltb_spec x z), (N.ltb_spec z x);
    try congruence; try lia.
  apply IH.
Qed.

Lemma str_lt_connex (a b : pystr) :
  str_lt a b = false -> str_lt b a = false -> a = b.
Proof.
  revert b. induction a as [|x a IH]; intros [|y b]; simpl;
    try congruence.
  destruct (N.ltb_spec x y), (N.ltb_spec y x); try congruence; try lia.
  intros Hab Hba. assert (x = y) by lia. subst. f_equal. auto.
Qed.

Lemma str_lt_asym (a b : pystr) : str_lt a b = true -> str_lt b a = false.
Proof.
  intros Hab. destruct (str_lt b a) eqn:Hba; [|reflexivity].
  pose proof (str_lt_trans _ _ _ Hab Hba) as H.
  rewrite str_lt_irrefl in H. discriminate.
Qed.

Lemma str_le_trans (a b c : pystr) :
  str_lt b a = false -> str_lt c b = false -> str_lt c a = false.
Proof.
  intros Hab Hbc. destruct (str_lt c a) eqn:Hca; [|reflexivity].
  destruct (str_lt a b) eqn:H1.
  - pose proof (str_lt_trans _ _ _ Hca H1). congruence.
  - assert (a = b) by (apply str_lt_connex; assumption). subst. congruence.
Qed.

(** ** [sorted] *)

Section SortedFacts.
Context {A : Type} (key : A -> pystr).

Local Abbreviation le := (key_le key).

Lemma key_le_refl x : le x x.
Proof. apply str_lt_irrefl. Qed.

Lemma key_le_trans x y z : le x y -> le y z -> le x z.
Proof. unfold key_le. intros. eapply str_le_trans; eassumption. Qed.

Lemma key_le_antisym x y : le x y -> le y x -> key x = key y.
Proof. unfold key_le. intros. apply str_lt_connex; assumption. Qed.

Lemma sorted_insert_Permutation x l :
  Permutation (sorted_insert key x l) (x :: l).
Proof.
  induction l as [|y l IH]; simpl; [reflexivity|].
  destruct (str_lt (key y) (key x)); [|reflexivity].
  rewrite IH. apply perm_swap.
Qed.

Lemma sorted_Permutation l : Permutation (sorted key l) l.
Proof.
  induction l as [|x l IH]; simpl; [reflexivity|].
  rewrite sorted_insert_Permutation. by constructor.
Qed.

Lemma sorted_insert_Forall (P : A -> Prop) x l :
  P x -> Forall P l -> Forall P (sorted_insert key x l).
Proof.
  intros Hx Hl. rewrite sorted_insert_Permutation. by constructor.
Qed.

Lemma sorted_insert_StronglySorted x l :
  StronglySorted le l -> StronglySorted le (sorted_insert key x l).
Proof.
  induction 1 as [|y l Hl IH Hy]; simpl.
  - repeat constructor.
  - destruct (str_lt (key y) (key x)) eqn:Hyx.
    + constructor; [exact IH|].
      apply sorted_insert_Forall; [|exact Hy].
      apply str_lt_asym. exact Hyx.
    + constructor; [by constructor|].
      constructor; [exact Hyx|].
      eapply Forall_impl; [exact Hy|].
      intros z Hz. eapply key_le_trans; [exact Hyx|exact Hz].
Qed.

Lemma sorted_StronglySorted l : StronglySorted le (sorted key l).
Proof.
  induction l as [|x l IH]; simpl; [constructor|].
  by apply sorted_insert_StronglySorted.
Qed.

(** A list already in order is returned as it is. *)
Lemma sorted_fixed l : StronglySorted le l -> sorted key l = l.
Proof.
  induction 1 as [|x l Hl IH Hx]; simpl; [reflexivity|].
  rewrite IH. destruct Hx as [|y l Hxy _]; simpl; [reflexivity|].
  unfold key_le in Hxy. by rewrite Hxy.
Qed.

Lemma sorted_idempotent l : sorted key (sorted key l) = sorted key l.
Proof. apply sorted_fixed, sorted_StronglySorted. Qed.

Lemma with_key_insert k x l :
  with_key key k (sorted_insert key x l) = with_key key k (x :: l).
Proof.
  induction l as [|y l IH]; [reflexivity|].
  simpl sorted_insert. destruct (str_lt (key y) (key x)) eqn:Hyx;
    [|reflexivity].
  unfold with_key in *. simpl in *. rewrite IH.
  destruct (bool_decide (key y = k)) eqn:Hy,
           (bool_decide (key x = k)) eqn:Hx; try reflexivity.
  apply bool_decide_eq_true in Hy, Hx.
  rewrite Hy, Hx, str_lt_irrefl in Hyx. discriminate.
Qed.

(** Stability: packages of equal key keep their order. *)
Lemma sorted_stable k l : with_key key k (sorted key l) = with_key key k l.
Proof.
  induction l as [|x l IH]; [reflexivity|].
  simpl sorted. rewrite with_key_insert.
  unfold with_key in *. simpl. by rewrite IH.
Qed.

Lemma with_key_nil l : (forall k, with_key key k l = []) -> l = [].
Proof.
  destruct l as [|x l]; [reflexivity|]. intros H.
  specialize (H (key x)). unfold with_key in H. simpl in H.
  rewrite bool_decide_eq_true_2 in H by reflexivity. discriminate.
Qed.

Lemma with_key_elem k x l :
  In x (with_key key k l) <-> In x l /\ key x = k.
Proof.
  unfold with_key. rewrite filter_In, bool_decide_eq_true. reflexivity.
Qed.

(** The head of an ordered list and the head of another ordered list
    with the same elements per key carry the same key. *)
Lemma stable_heads x l1 y l2 :
  StronglySorted le (y :: l2) ->
  (forall k, with_key key k (x :: l1) = with_key key k (y :: l2)) ->
  le y x.
Proof.
  intros Hs H.
  assert (Hin : In x (y :: l2)).
  { apply (with_key_elem (key x)). rewrite <- H.
    apply with_key_elem. split; [by left|reflexivity]. }
  destruct Hin as [->|Hin]; [apply key_le_refl|].
  apply StronglySorted_inv in Hs as [_ Hy].
  rewrite Forall_forall in Hy. apply Hy. by apply list_elem_of_In.
Qed.

(** Two ordered lists with the same elements per key, in the same order
    per key, are the same list: the result of a stable sort is
    determined by its input. *)
Lemma stable_sort_unique l1 l2 :
  StronglySorted le l1 -> StronglySorted le l2 ->
  (forall k, with_key key k l1 = with_key key k l2) ->
  l1 = l2.
Proof.
  revert l2. induction l1 as [|x l1 IH]; intros l2 H1 H2 H.
  - symmetry. apply with_key_nil. intros k. by rewrite <- H.
  - destruct l2 as [|y l2].
    { apply with_key_nil. exact H. }
    assert (Hk : key x = key y).
    { apply key_le_antisym.
      - eapply stable_heads; [exact H1|]. intros k. by rewrite H.
      - eapply stable_heads; [exact H2|exact H]. }
    assert (Hxy : x = y /\ forall k, with_key key k l1 = with_key key k l2).
    { split.
      - specialize (H (key x)). unfold with_key in H. simpl in H.
        rewrite bool_decide_eq_true_2 in H by reflexivity.
        rewrite (bool_decide_eq_true_2 (key y = key x)) in H by done.
        congruence.
      - intros k. specialize (H k). unfold with_key in *. simpl in H.
        rewrite Hk in H.
        destruct (bool_decide (key y = k)); congruence. }
    destruct Hxy as [-> Ht]. f_equal.
    apply IH; [|by apply StronglySorted_inv in H2 as [? _]|exact Ht].
    by apply StronglySorted_inv in H1 as [? _].
Qed.

(** Any list in order that keeps, for every key, the elements of [l]
    with that key in their order is [sorted key l]. *)
Lemma sorted_characterised l l' :
  StronglySorted le l' ->
  (forall k, with_key key k l' = with_key key k l) ->
  l' = sorted key l.
Proof.
  intros Hs Hk. apply stable_sort_unique; [exact Hs|apply sorted_StronglySorted|].
  intros k. by rewrite sorted_stable.
Qed.

End SortedFacts.

(** ** The status of a package *)

Lemma strip_control_free (s : pystr) :
  control_free s -> Rich.strip_control_codes s = s.
Proof.
  unfold control_free, Rich.strip_control_codes.
  induction 1 as [|c s Hc Hs IH]; simpl; [reflexivity|].
  by rewrite Hc, IH.
Qed.

Lemma strip_control_codes_free (s : pystr) :
  control_free (Rich.strip_control_codes s).
Proof.
  unfold control_free, Rich.strip_control_codes.
  apply Forall_forall. intros c Hc.
  apply list_elem_of_In, filter_In in Hc as [_ Hc].
  by apply negb_true_iff in Hc.
Qed.

Lemma icon_plain (b : bool) :
  Rich.plain (Package._get_update_status_icon b) = [Package.glyph b].
Proof. by destruct b. Qed.

Lemma status_plain (p : Package.t) :
  Rich.plain (Package.status p)
  = Package.glyph (Package.update_available p) :: SPACE
    :: Rich.strip_control_codes (Package.version p).
Proof.
  unfold Package.status. simpl. rewrite icon_plain. reflexivity.
Qed.

(** C4 as stated fails: the status of a package whose version ends in a
    bell character does not end in that version, with or without a space
    in between. *)
Lemma status_drops_control_codes :
  let p := Package.__init__ SampleTree.belled 0 in
  Package.version p = lit "1.0" ++ [7]
  /\ Rich.plain (Package.status p)
     = Package.HEAVY_CHECK_MARK :: SPACE :: lit "1.0"
  /\ ~ (exists before, Rich.plain (Package.status p)
                       = before ++ Package.version p).
Proof.
  split; [reflexivity|]. split; [reflexivity|].
  intros [before H]. apply (f_equal (@rev N)) in H.
  rewrite rev_app_distr in H. vm_compute in H. discriminate.
Qed.

(** C4, amended.  The status of a package is the up-arrow glyph when an
    update is available and the check-mark glyph when none is, followed by
    a space and the version without the control characters that rich text
    drops (bell, backspace, vertical tab, form feed, carriage return): the
    version itself when it holds none.  The icon is carried over with its
    own colour span and nothing else is styled.  The icon is a function of
    the flag alone and takes exactly two values, one per flag. *)
Theorem status_renders_glyph_and_version (p : Package.t) :
  Rich.plain (Package.status p)
  = (if Package.update_available p
     then Package.UPWARDS_ARROW :: SPACE
          :: Rich.strip_control_codes (Package.version p)
     else Package.HEAVY_CHECK_MARK :: SPACE
          :: Rich.strip_control_codes (Package.version p))
  /\ (control_free (Package.version p) ->
      Rich.plain (Package.status p)
      = (if Package.update_available p
         then Package.UPWARDS_ARROW :: SPACE :: Package.version p
         else Package.HEAVY_CHECK_MARK :: SPACE :: Package.version p))
  /\ Rich.spans (Package.status p)
     = Rich.spans (Package._get_update_status_icon (Package.update_available p))
  /\ (forall b, Rich.plain (Package._get_update_status_icon b) = [Package.glyph b])
  /\ Package._get_update_status_icon true
     <> Package._get_update_status_icon false
  /\ (forall b, Package._get_update_status_icon b
                = Package._get_update_status_icon true
                \/ Package._get_update_status_icon b
                   = Package._get_update_status_icon false).
Proof.
  split; [|split; [|split; [|split; [|split]]]].
  - rewrite status_plain. by destruct (Package.update_available p).
  - intros Hv. rewrite status_plain, strip_control_free by exact Hv.
    by destruct (Package.update_available p).
  - reflexivity.
  - apply icon_plain.
  - discriminate.
  - intros []; [by left|by right].
Qed.

(** C10 as stated fails: after the flag of a package whose version ends
    in a bell character has been assigned, the status does not end in that
    version. *)
Lemma assigned_status_drops_control_codes :
  let p := Package.set_update_available
             (Package.__init__ SampleTree.belled 0) true in
  Package.update_available p = true
  /\ Rich.plain (Package.status p)
     = Package.UPWARDS_ARROW :: SPACE :: lit "1.0"
  /\ ~ (exists before, Rich.plain (Package.status p)
                       = before ++ Package.version p).
Proof.
  split; [reflexivity|]. split; [reflexivity|].
  intros [before H]. apply (f_equal (@rev N)) in H.
  rewrite rev_app_distr in H. vm_compute in H. discriminate.
Qed.

(** C10, amended.  Once [update_available] has been assigned [b], reading
    it gives [b], whether through the property or through an attribute
    read, and [status] shows the glyph of [b], a space and the version
    without the control characters that rich text drops (the version
    itself when it holds none); this holds in particular for a package
    fresh from [__init__], whatever flag the random draw gave it. *)
Theorem update_available_assignment_takes_effect
    (w : World) (p : Package.t) (b : bool) (record : PrefixRecord) (draw : N) :
  let p' := Package.set_update_available p b in
  let q' := Package.set_update_available (Package.__init__ record draw) b in
  Package.update_available p' = b
  /\ Package.read w p' "update_available" = (p', Ok (Package.AValue (VBool b)))
  /\ Package.status p'
     = Rich.add_str
         (Rich.add_str (Package._get_update_status_icon b) (lit " "))
         (Package.version p)
  /\ Rich.plain (Package.status p')
     = Package.glyph b :: SPACE :: Rich.strip_control_codes (Package.version p)
  /\ (control_free (Package.version p) ->
      Rich.plain (Package.status p')
      = Package.glyph b :: SPACE :: Package.version p)
  /\ Package.read w p' "status" = (p', Ok (Package.AText (Package.status p')))
  /\ Package.update_available q' = b
  /\ Rich.plain (Package.status q')
     = Package.glyph b :: SPACE :: Rich.strip_control_codes (rec_version record)
  /\ (control_free (rec_version record) ->
      Rich.plain (Package.status q')
      = Package.glyph b :: SPACE :: rec_version record).
Proof.
  intros p' q'.
  split; [reflexivity|]. split; [reflexivity|]. split; [reflexivity|].
  split; [exact (status_plain p')|].
  split.
  { intros Hv. rewrite (status_plain p').
    change (Package.version p') with (Package.version p).
    by rewrite strip_control_free. }
  split; [reflexivity|]. split; [reflexivity|].
  split; [exact (status_plain q')|].
  intros Hv. rewrite (status_plain q').
  change (Package.version q') with (rec_version record).
  by rewrite strip_control_free.
Qed.

(** ** Attribute reads *)

Lemma defined_false_not_own (item : string) :
  Package.defined item = false ->
  String.eqb item "_record" = false
  /\ String.eqb item "_update_available" = false
  /\ String.eqb item "update_available" = false
  /\ String.eqb item "status" = false
  /\ String.eqb item "description" = false.
Proof.
  intros Hd. unfold Package.defined in Hd.
  apply bool_decide_eq_false in Hd.
  repeat split; apply String.eqb_neq; intros ->; apply Hd;
    vm_compute; set_solver.
Qed.

Lemma getattr_raises_iff (r : PrefixRecord) (item : string) :
  raises (getattr r item) <-> hasattr r item = false.
Proof.
  unfold raises, hasattr. destruct (getattr r item) as [v|e]; simpl.
  - split; [intros [e He]; discriminate|discriminate].
  - split; [reflexivity|eauto].
Qed.

(** C9.  A name that neither the view-model nor [object] defines is read
    from the wrapped record: the read leaves the package as it is, gives the
    record's value for the name, and raises exactly when the record does not
    have the attribute. *)
Theorem unknown_attribute_passes_through
    (w : World) (p : Package.t) (item : string) :
  Package.defined item = false ->
  Package.read w p item
  = (p, match getattr (Package._record p) item with
        | Ok v => Ok (Package.AValue v)
        | Raise e => Raise e
        end)
  /\ (raises (Package.read w p item).2
      <-> hasattr (Package._record p) item = false).
Proof.
  intros Hd. destruct (defined_false_not_own item Hd) as (H1&H2&H3&H4&H5).
  assert (Hr : Package.read w p item
    = (p, match getattr (Package._record p) item with
          | Ok v => Ok (Package.AValue v)
          | Raise e => Raise e
          end)).
  { unfold Package.read. rewrite H1, H2, H3, H4, H5, Hd.
    unfold Package.__getattr__. by destruct (getattr _ _). }
  split; [exact Hr|]. rewrite Hr. simpl.
  unfold raises, hasattr.
  destruct (getattr (Package._record p) item) as [v|e0]; simpl.
  - split; [intros [e1 He]; discriminate|discriminate].
  - split; [reflexivity|eauto].
Qed.

(** ** The description of a package *)

(** The record has no extracted package directory: the description is the
    empty string. *)
Lemma description_without_directory (w : World) (p : Package.t) :
  hasattr (Package._record p) "extracted_package_dir" = false ->
  Package.description w p = Ok (VStr []).
Proof.
  unfold hasattr, Package.description, Package.__getattr__, getattr. simpl.
  destruct (rec_fields (Package._record p) !! "extracted_package_dir"%string);
    [discriminate|reflexivity].
Qed.

(** The sidecar does not exist: the description is the empty string. *)
Lemma description_without_sidecar (w : World) (p : Package.t) (dir : pystr) :
  getattr (Package._record p) "extracted_package_dir" = Ok (VStr dir) ->
  about_json w dir = Missing ->
  Package.description w p = Ok (VStr []).
Proof.
  intros Hd Hf. unfold Package.description, Package.__getattr__.
  rewrite Hd. cbn [fspath]. by rewrite Hf.
Qed.

(** The sidecar exists and is not a JSON document: the exception of the
    decoder leaves the body, and the read of the attribute with it. *)
Lemma description_malformed_sidecar (w : World) (p : Package.t) (dir : pystr) :
  getattr (Package._record p) "extracted_package_dir" = Ok (VStr dir) ->
  about_json w dir = RegularFile (Raise JSONDecodeError) ->
  Package.description_slot p = None ->
  Package.read_description w p = (p, Raise JSONDecodeError).
Proof.
  intros Hd Hf Hs. unfold Package.read_description, Package.description,
    Package.__getattr__.
  rewrite Hs, Hd. cbn [fspath]. by rewrite Hf.
Qed.

(** C2.  On the sample installation, reading the description of numpy,
    whose sidecar is malformed, raises [JSONDecodeError] instead of giving
    the empty string; the packages without a directory or without a
    sidecar give the empty string. *)
Theorem description_raises_on_malformed_sidecar :
  let numpy := Package.__init__ Sample.numpy 0 in
  let requests := Package.__init__ Sample.requests 0 in
  (Package.read_description Sample.world numpy).2 = Raise JSONDecodeError
  /\ (Package.read Sample.world numpy "description").2 = Raise JSONDecodeError
  /\ (Package.read_description Sample.world requests).2 = Ok (VStr []).
Proof. vm_compute. repeat split. Qed.

(** ** The lister and its cache *)

Section ListerFacts.
Variable prefix : Environment -> pystr.
Variable w : World.

Local Abbreviation lister := (list_packages_for_environment prefix w).

Lemma wrap_records pos records :
  map Package._record (wrap w pos records) = records.
Proof.
  revert pos. induction records as [|r rs IH]; intros pos; simpl;
    [reflexivity|]. by rewrite IH.
Qed.

Lemma lister_hit s env a :
  lister_cache s !! env = Some a ->
  lister s env = (log_call env s, Ok a).
Proof.
  intros H. unfold list_packages_for_environment. simpl. by rewrite H.
Qed.

Lemma lister_miss_ok s env records :
  lister_cache s !! env = None ->
  iter_records w (prefix env) = Ok records ->
  lister s env
  = (remember env (length (heap s))
       (alloc (sorted Package.name (wrap w (drawn s) records))
          (log_read env (length records) true (log_call env s))).1,
     Ok (length (heap s))).
Proof.
  intros Hc Hr. unfold list_packages_for_environment, list_packages.
  simpl. by rewrite Hc, Hr.
Qed.

Lemma lister_miss_raise s env e :
  lister_cache s !! env = None ->
  iter_records w (prefix env) = Raise e ->
  lister s env = (log_read env 0 false (log_call env s), Raise e).
Proof.
  intros Hc Hr. unfold list_packages_for_environment, list_packages.
  simpl. by rewrite Hc, Hr.
Qed.

(** The three ways a call can go. *)
Lemma lister_cases s env :
  (exists a, lister_cache s !! env = Some a
             /\ lister s env = (log_call env s, Ok a))
  \/ (exists records, lister_cache s !! env = None
        /\ iter_records w (prefix env) = Ok records
        /\ lister s env
           = (remember env (length (heap s))
                (alloc (sorted Package.name (wrap w (drawn s) records))
                   (log_read env (length records) true (log_call env s))).1,
              Ok (length (heap s))))
  \/ (exists e, lister_cache s !! env = None
        /\ iter_records w (prefix env) = Raise e
        /\ lister s env = (log_read env 0 false (log_call env s), Raise e)).
Proof.
  destruct (lister_cache s !! env) as [a|] eqn:Hc.
  - left. eauto using lister_hit.
  - destruct (iter_records w (prefix env)) as [records|e] eqn:Hr.
    + right; left. eauto using lister_miss_ok.
    + right; right. eauto using lister_miss_raise.
Qed.

Lemma lister_inv_init : lister_inv prefix w Process_init.
Proof.
  split.
  - intros env a H. simpl in H. by rewrite lookup_empty in H.
  - intros env. simpl. by rewrite lookup_empty.
Qed.

Lemma good_reads_snoc env s r reads :
  store_reads s = reads ++ [r] ->
  length (List.filter (fun r => bool_decide (r = (env, true))) (store_reads s))
  = (length (List.filter (fun r => bool_decide (r = (env, true))) reads)
     + if bool_decide (r = (env, true)) then 1 else 0)%nat.
Proof.
  intros ->. rewrite List.filter_app, length_app. simpl.
  by destruct (bool_decide (r = (env, true))).
Qed.

Lemma lister_inv_step s env :
  lister_inv prefix w s -> lister_inv prefix w (lister s env).1.
Proof.
  intros [Hc Hr].
  destruct (lister_cases s env)
    as [(a & Ha & ->)|[(records & Hn & Hi & ->)|(e & Hn & Hi & ->)]]; simpl.
  - split; [exact Hc|exact Hr].
  - split; simpl.
    + intros env' a'. destruct (decide (env = env')) as [<-|Hne].
      * rewrite lookup_insert_eq. intros [= <-].
        exists records, (drawn s).
        split; [exact Hi|].
        by rewrite lookup_app_r, Nat.sub_diag.
      * rewrite lookup_insert_ne by done. intros H.
        destruct (Hc env' a' H) as (records' & pos & H1 & H2).
        exists records', pos. split; [exact H1|].
        rewrite lookup_app_l; [exact H2|]. by eapply lookup_lt_Some.
    + intros env'. unfold good_reads_of. simpl.
      rewrite List.filter_app, length_app. simpl.
      specialize (Hr env'). unfold good_reads_of in Hr. rewrite Hr.
      destruct (decide (env = env')) as [<-|Hne].
      * rewrite lookup_insert_eq, Hn.
        by rewrite bool_decide_eq_true_2.
      * rewrite lookup_insert_ne by done.
        rewrite bool_decide_eq_false_2 by congruence.
        simpl. lia.
  - split; simpl.
    + exact Hc.
    + intros env'. unfold good_reads_of. simpl.
      rewrite List.filter_app, length_app. simpl.
      specialize (Hr env'). unfold good_reads_of in Hr. rewrite Hr.
      rewrite bool_decide_eq_false_2 by congruence.
      simpl. lia.
Qed.

Lemma lister_inv_run envs s : lister_inv prefix w s -> lister_inv prefix w (run prefix w s envs).
Proof.
  revert s. induction envs as [|env envs IH]; intros s H; simpl;
    [exact H|]. by apply IH, lister_inv_step.
Qed.

(** The cache only grows. *)
Lemma lister_cache_kept s env env' a :
  lister_cache s !! env = Some a ->
  lister_cache (lister s env').1 !! env = Some a.
Proof.
  intros H.
  destruct (lister_cases s env')
    as [(a' & Ha & ->)|[(records & Hn & Hi & ->)|(e & Hn & Hi & ->)]]; simpl;
    try exact H.
  rewrite lookup_insert_ne; [exact H|]. intros <-. congruence.
Qed.

Lemma run_cache_kept envs s env a :
  lister_cache s !! env = Some a ->
  lister_cache (run prefix w s envs) !! env = Some a.
Proof.
  revert s. induction envs as [|env' envs IH]; intros s H; simpl;
    [exact H|]. by apply IH, lister_cache_kept.
Qed.

(** List objects are never replaced. *)
Lemma lister_heap_kept s env' a l :
  heap s !! a = Some l -> heap (lister s env').1 !! a = Some l.
Proof.
  intros H.
  destruct (lister_cases s env')
    as [(a' & Ha & ->)|[(records & Hn & Hi & ->)|(e & Hn & Hi & ->)]]; simpl;
    try exact H.
  rewrite lookup_app_l; [exact H|]. by eapply lookup_lt_Some.
Qed.

Lemma run_heap_kept envs s a l :
  heap s !! a = Some l -> heap (run prefix w s envs) !! a = Some l.
Proof.
  revert s. induction envs as [|env' envs IH]; intros s H; simpl;
    [exact H|]. by apply IH, lister_heap_kept.
Qed.

(** A call that returns leaves its environment remembered. *)
Lemma lister_ok_cached s env s1 a :
  lister s env = (s1, Ok a) -> lister_cache s1 !! env = Some a.
Proof.
  destruct (lister_cases s env)
    as [(a' & Ha & ->)|[(records & Hn & Hi & ->)|(e & Hn & Hi & ->)]];
    intros [= <- <-]; simpl.
  - exact Ha.
  - apply lookup_insert_eq.
Qed.

(** Once an environment is remembered its store is not read again. *)
Lemma lister_reads_kept s env env' a :
  lister_cache s !! env = Some a ->
  reads_of env (lister s env').1 = reads_of env s.
Proof.
  intros H.
  destruct (lister_cases s env')
    as [(a' & Ha & ->)|[(records & Hn & Hi & ->)|(e & Hn & Hi & ->)]];
    unfold reads_of; simpl; try reflexivity;
    rewrite List.filter_app, length_app; simpl;
    rewrite bool_decide_eq_false_2 by (intros <-; congruence);
    simpl; lia.
Qed.

Lemma run_reads_kept envs s env a :
  lister_cache s !! env = Some a ->
  reads_of env (run prefix w s envs) = reads_of env s.
Proof.
  revert s. induction envs as [|env' envs IH]; intros s H; simpl;
    [reflexivity|].
  rewrite IH by (by apply lister_cache_kept).
  by eapply lister_reads_kept.
Qed.

End ListerFacts.

(** ** The listing of an environment *)

Example sample_listing :
  let r := list_packages_for_environment Sample.prefix Sample.world
             Process_init Sample.base in
  r.2 = Ok 0%nat
  /\ map Package.name <$> heap r.1 !! 0%nat
     = Some [lit "numpy"; lit "requests"; lit "zlib"]
  /\ map Package.update_available <$> heap r.1 !! 0%nat
     = Some [true; false; false].
Proof. vm_compute. repeat split. Qed.

(** C1.  Whatever calls came before, listing an environment whose metadata
    store can be read returns a list: the packages wrapped around the
    records of the store, sorted by name.  The list is in ascending order
    of package name, holds one package per record of the store, and is
    left as it is by sorting it by name once more. *)
Theorem listing_sorted_by_name
    (prefix : Environment -> pystr) (w : World)
    (earlier : list Environment) (env : Environment)
    (records : list PrefixRecord) :
  iter_records w (prefix env) = Ok records ->
  let r := list_packages_for_environment prefix w
             (run prefix w Process_init earlier) env in
  exists a l pos,
    r.2 = Ok a
    /\ heap r.1 !! a = Some l
    /\ l = sorted Package.name (wrap w pos records)
    /\ StronglySorted name_le l
    /\ sorted Package.name l = l
    /\ Permutation (map Package._record l) records.
Proof.
  intros Hi r. subst r.
  set (s := run prefix w Process_init earlier).
  assert (Hinv : lister_inv prefix w s)
    by apply lister_inv_run, lister_inv_init.
  pose proof (lister_inv_step prefix w s env Hinv) as Hinv'.
  assert (Hok : exists a, (list_packages_for_environment prefix w s env).2 = Ok a).
  { destruct (lister_cases prefix w s env)
      as [(a & _ & ->)|[(rs & _ & _ & ->)|(e & _ & He & _)]];
      [by eexists|by eexists|congruence]. }
  destruct Hok as [a Ha]. exists a.
  destruct (list_packages_for_environment prefix w s env) as [s1 r1] eqn:Hcall.
  simpl in *. subst r1.
  pose proof (lister_ok_cached prefix w s env s1 a Hcall) as Hc.
  destruct (inv_cached _ _ _ Hinv' env a Hc) as (rs & pos & H1 & H2).
  assert (rs = records) as -> by congruence.
  exists (sorted Package.name (wrap w pos records)), pos.
  split; [reflexivity|]. split; [exact H2|]. split; [reflexivity|].
  split; [apply sorted_StronglySorted|].
  split; [apply sorted_idempotent|].
  rewrite (sorted_Permutation Package.name). by rewrite wrap_records.
Qed.

Lemma listing_sorted_by_name_witness :
  let r := list_packages_for_environment Sample.prefix Sample.world
             (run Sample.prefix Sample.world Process_init
                [Sample.broken; Sample.base]) Sample.base in
  exists a l pos,
    r.2 = Ok a
    /\ heap r.1 !! a = Some l
    /\ l = sorted Package.name
             (wrap Sample.world pos
                [Sample.zlib; Sample.numpy; Sample.requests])
    /\ StronglySorted name_le l
    /\ sorted Package.name l = l
    /\ Permutation (map Package._record l)
         [Sample.zlib; Sample.numpy; Sample.requests].
Proof.
  apply (listing_sorted_by_name Sample.prefix Sample.world
           [Sample.broken; Sample.base] Sample.base
           [Sample.zlib; Sample.numpy; Sample.requests]).
  reflexivity.
Defined.

(** C3 as stated fails: the metadata store of an unreadable environment
    is read on every call; two calls, two reads. *)
Lemma unreadable_store_is_read_again :
  let s := run Sample.prefix Sample.world Process_init
             [Sample.broken; Sample.broken] in
  ~ (reads_of Sample.broken s <= 1)%nat.
Proof. vm_compute. lia. Qed.

(** C3, amended.  Once a call for an environment has returned a list, every
    later call for an equal environment returns that same list object,
    unchanged, and reads no metadata store; and over any run of calls the
    store of an environment is read with success at most once. *)
Theorem cached_listing_is_shared
    (prefix : Environment -> pystr) (w : World)
    (earlier between : list Environment) (e1 e2 : Environment)
    (s1 : Process) (a : nat) :
  e1 = e2 ->
  list_packages_for_environment prefix w
    (run prefix w Process_init earlier) e1 = (s1, Ok a) ->
  let s2 := run prefix w s1 between in
  list_packages_for_environment prefix w s2 e2 = (log_call e2 s2, Ok a)
  /\ (exists l, heap s1 !! a = Some l /\ heap (log_call e2 s2) !! a = Some l)
  /\ store_reads (log_call e2 s2) = store_reads s2
  /\ reads_of e1 (log_call e2 s2) = reads_of e1 s1
  /\ (forall env, good_reads_of env (log_call e2 s2) <= 1)%nat.
Proof.
  intros <- Hcall s2.
  set (s := run prefix w Process_init earlier) in *.
  assert (Hinv : lister_inv prefix w s)
    by apply lister_inv_run, lister_inv_init.
  assert (Hinv1 : lister_inv prefix w s1).
  { pose proof (lister_inv_step prefix w s e1 Hinv) as H.
    by rewrite Hcall in H. }
  assert (Hinv2 : lister_inv prefix w s2) by by apply lister_inv_run.
  pose proof (lister_ok_cached prefix w s e1 s1 a Hcall) as Hc1.
  assert (Hc2 : lister_cache s2 !! e1 = Some a) by by apply run_cache_kept.
  split; [by apply lister_hit|].
  split.
  { destruct (inv_cached _ _ _ Hinv1 e1 a Hc1) as (rs & pos & _ & Hl).
    eexists. split; [exact Hl|]. simpl. by apply run_heap_kept. }
  split; [reflexivity|].
  split.
  { unfold reads_of at 1. simpl. fold (reads_of e1 s2).
    by eapply run_reads_kept. }
  intros env. unfold good_reads_of. simpl. fold (good_reads_of env s2).
  rewrite (inv_reads _ _ _ Hinv2 env).
  destruct (lister_cache s2 !! env); lia.
Qed.

Lemma cached_listing_is_shared_witness :
  let s1 := (list_packages_for_environment Sample.prefix Sample.world
               Process_init Sample.base).1 in
  let s2 := run Sample.prefix Sample.world s1 [Sample.broken; Sample.locked] in
  list_packages_for_environment Sample.prefix Sample.world s2 Sample.base
  = (log_call Sample.base s2, Ok 0%nat)
  /\ (exists l, heap s1 !! 0%nat = Some l
                /\ heap (log_call Sample.base s2) !! 0%nat = Some l)
  /\ store_reads (log_call Sample.base s2) = store_reads s2
  /\ reads_of Sample.base (log_call Sample.base s2) = reads_of Sample.base s1
  /\ (forall env, good_reads_of env (log_call Sample.base s2) <= 1)%nat.
Proof.
  apply (cached_listing_is_shared Sample.prefix Sample.world []
           [Sample.broken; Sample.locked] Sample.base Sample.base).
  - reflexivity.
  - reflexivity.
Defined.

(** ** An environment that cannot be read *)

(** C8 as stated fails.  No single outcome stands for an unreadable
    environment: the lister hands on the exception of the store, a
    different one for a corrupt store and for a store it may not open, and
    the click handler lets it out. *)
Lemma unreadable_environment_not_distinguished :
  ~ (exists c : result nat, forall env e,
       iter_records Sample.world (Sample.prefix env) = Raise e ->
       (list_packages_for_environment Sample.prefix Sample.world
          Process_init env).2 = c)
  /\ (handle_tree_click Sample.prefix Sample.world Sample.app
        Sample.broken_node).2 = Raise CorruptedEnvironmentError.
Proof.
  split; [|reflexivity].
  intros [c H].
  pose proof (H Sample.broken CorruptedEnvironmentError eq_refl) as H1.
  pose proof (H Sample.locked PermissionError eq_refl) as H2.
  vm_compute in H1, H2. congruence.
Qed.

(** C8, amended.  When the metadata store of an environment cannot be
    opened, the exception it raises leaves [list_packages_for_environment]
    as it is: nothing is caught, nothing is remembered and no list is
    built; a click on a node of that environment ends with the same
    exception, the pane and the node left alone. *)
Theorem unreadable_store_exception_propagates
    (prefix : Environment -> pystr) (w : World)
    (earlier : list Environment) (node : TreeNode) (e : exn)
    (pane : option Pane) (opened : gset N) :
  iter_records w (prefix (node_data node)) = Raise e ->
  opt_truthy (env_path (node_data node)) = true ->
  let env := node_data node in
  let s := run prefix w Process_init earlier in
  let app := {| proc := s; package_list := pane; expanded_nodes := opened |} in
  let s' := log_read env 0 false (log_call env s) in
  list_packages_for_environment prefix w s env = (s', Raise e)
  /\ lister_cache s' = lister_cache s
  /\ heap s' = heap s
  /\ handle_tree_click prefix w app node
     = ({| proc := s'; package_list := pane; expanded_nodes := opened |},
        Raise e).
Proof.
  intros Hi Hp env s app s'.
  assert (Hinv : lister_inv prefix w s)
    by apply lister_inv_run, lister_inv_init.
  assert (Hn : lister_cache s !! env = None).
  { destruct (lister_cache s !! env) as [a|] eqn:Hc; [|reflexivity].
    destruct (inv_cached _ _ _ Hinv env a Hc) as (rs & pos & H1 & _).
    subst env. congruence. }
  assert (Hcall : list_packages_for_environment prefix w s env = (s', Raise e))
    by by apply lister_miss_raise.
  split; [exact Hcall|]. split; [reflexivity|]. split; [reflexivity|].
  unfold handle_tree_click, show_package_table. subst app env. simpl.
  rewrite Hp. simpl. by rewrite Hcall.
Qed.

Lemma unreadable_store_exception_propagates_witness :
  let env := Sample.broken in
  let s := run Sample.prefix Sample.world Process_init [Sample.base] in
  let app := {| proc := s; package_list := None; expanded_nodes := ∅ |} in
  let s' := log_read env 0 false (log_call env s) in
  list_packages_for_environment Sample.prefix Sample.world s env
  = (s', Raise CorruptedEnvironmentError)
  /\ lister_cache s' = lister_cache s
  /\ heap s' = heap s
  /\ handle_tree_click Sample.prefix Sample.world app Sample.broken_node
     = ({| proc := s'; package_list := None; expanded_nodes := ∅ |},
        Raise CorruptedEnvironmentError).
Proof.
  apply (unreadable_store_exception_propagates Sample.prefix Sample.world
           [Sample.base] Sample.broken_node CorruptedEnvironmentError None ∅).
  - reflexivity.
  - reflexivity.
Defined.

(** ** Clicks on the tree *)

(** C5.  A click on a node whose environment has no path, the root among
    them, leaves the application as it was: the lister is not called.  A
    click on any other node calls the lister at most once, for the
    environment of the node, and only when its path is a non-empty
    string. *)
Theorem click_without_path_lists_nothing
    (prefix : Environment -> pystr) (w : World) (app : App) (node : TreeNode) :
  match env_path (node_data node) with
  | None => handle_tree_click prefix w app node = (app, Ok tt)
  | Some path =>
      lister_calls (proc (handle_tree_click prefix w app node).1)
      = lister_calls (proc app)
        ++ (if str_truthy path then [node_data node] else [])
  end
  /\ handle_tree_click prefix w app
       {| node_id := node_id node; node_label := node_label node;
          node_data := Environment_root;
          node_is_cursor := node_is_cursor node |}
     = (app, Ok tt).
Proof.
  split; [|reflexivity].
  unfold handle_tree_click.
  destruct (env_path (node_data node)) as [path|] eqn:Hp; simpl;
    [|reflexivity].
  destruct (str_truthy path); simpl; [|by rewrite app_nil_r].
  unfold show_package_table.
  destruct (lister_cases prefix w (proc app) (node_data node))
    as [(a & _ & ->)|[(rs & _ & _ & ->)|(e & _ & _ & ->)]]; reflexivity.
Qed.

(** ** The logo *)

Lemma split_lines_nonempty (s : pystr) : split_lines s <> [].
Proof.
  destruct s as [|c s]; simpl; [discriminate|].
  destruct (c =? NEWLINE); [discriminate|].
  destruct (split_lines s); discriminate.
Qed.

Lemma split_lines_Forall (P : N -> Prop) (s : pystr) :
  Forall (fun c => c = NEWLINE \/ P c) s ->
  Forall (Forall (fun c => c <> NEWLINE /\ P c)) (split_lines s).
Proof.
  induction 1 as [|c s Hc Hs IH]; simpl; [by repeat constructor|].
  destruct (N.eqb_spec c NEWLINE) as [->|Hne].
  - by constructor.
  - destruct Hc as [?|Hc]; [done|].
    destruct (split_lines s) as [|l ls]; [by repeat constructor|].
    apply Forall_cons in IH as [Hl Hls]. by repeat constructor.
Qed.

Lemma split_lines_line (l : pystr) :
  Forall (fun c => c <> NEWLINE) l -> split_lines l = [l].
Proof.
  induction 1 as [|c l Hc Hl IH]; simpl; [reflexivity|].
  destruct (N.eqb_spec c NEWLINE); [done|]. by rewrite IH.
Qed.

Lemma split_lines_app (l rest : pystr) :
  Forall (fun c => c <> NEWLINE) l ->
  split_lines (l ++ NEWLINE :: rest) = l :: split_lines rest.
Proof.
  induction 1 as [|c l Hc Hl IH]; simpl; [reflexivity|].
  destruct (N.eqb_spec c NEWLINE); [done|]. by rewrite IH.
Qed.

(** Splitting what was joined gives the lines back. *)
Lemma split_join_lines (ls : list pystr) :
  ls <> [] ->
  Forall (Forall (fun c => c <> NEWLINE)) ls ->
  split_lines (join_lines ls) = ls.
Proof.
  intros Hne H. induction H as [|l ls Hl Hls IH]; [done|].
  destruct ls as [|l' ls'].
  - simpl. by apply split_lines_line.
  - change (join_lines (l :: l' :: ls'))
      with (l ++ NEWLINE :: join_lines (l' :: ls')).
    rewrite split_lines_app by done. f_equal. by apply IH.
Qed.

Lemma fold_max_bounds (ns : list nat) (n : nat) :
  (n <= fold_left Nat.max ns n)%nat
  /\ Forall (fun k => k <= fold_left Nat.max ns n)%nat ns.
Proof.
  revert n. induction ns as [|k ns IH]; intros n; simpl; [by split|].
  destruct (IH (Nat.max n k)) as [H1 H2]. split; [lia|].
  constructor; [lia|exact H2].
Qed.

Lemma py_max_bounds (ns : list nat) (m : nat) :
  py_max ns = Ok m -> Forall (fun k => k <= m)%nat ns.
Proof.
  destruct ns as [|n ns]; [discriminate|]. intros [= <-].
  destruct (fold_max_bounds ns n). by constructor.
Qed.

Lemma len_format_s (line : pystr) (width : nat) :
  (len line <= width)%nat -> len (format_s line width) = width.
Proof.
  intros H. unfold format_s, len in *. rewrite length_app, repeat_length. lia.
Qed.

Lemma high_code_not_control (c : N) :
  14 <= c -> Rich.is_control_code c = false.
Proof.
  intros H. unfold Rich.is_control_code.
  destruct (N.eqb_spec c 7), (N.eqb_spec c 8), (N.eqb_spec c 11),
    (N.eqb_spec c 12), (N.eqb_spec c 13); try lia; reflexivity.
Qed.

Lemma join_lines_control_free (ls : list pystr) :
  Forall control_free ls -> control_free (join_lines ls).
Proof.
  induction 1 as [|l ls Hl Hls IH]; [constructor|].
  destruct ls as [|l' ls']; [exact Hl|].
  change (join_lines (l :: l' :: ls'))
    with (l ++ NEWLINE :: join_lines (l' :: ls')).
  apply Forall_app. split; [exact Hl|]. by constructor.
Qed.

Lemma pad_line_control_free (width : nat) (line : pystr) :
  control_free line -> control_free (pad_line width line).
Proof.
  intros H. unfold control_free, pad_line, format_s. rewrite !Forall_app.
  split; [by repeat constructor|]. split; [|by repeat constructor].
  split; [exact H|].
  apply Forall_forall. intros c Hin.
  apply list_elem_of_In, repeat_spec in Hin. by subst.
Qed.

(** What [Text(...)] keeps of the joined lines: all of it, when the lines
    of the asset hold no control code. *)
Lemma plain_of_padded_lines (width : nat) (lines : list pystr) sty j nw :
  Forall control_free lines ->
  Rich.plain (Rich.mk (join_lines (map (pad_line width) lines)) sty j nw)
  = join_lines (map (pad_line width) lines).
Proof.
  intros H. cbn [Rich.mk Rich.plain]. apply strip_control_free.
  apply join_lines_control_free, Forall_map.
  eapply Forall_impl; [exact H|]. apply pad_line_control_free.
Qed.

Section LogoFacts.
(** The width of a character in terminal cells, as the terminal library
    tabulates it: nothing for the zero width space, one cell for a
    printable ASCII character. *)
Variable char_width : N -> nat.
Hypothesis zero_width : char_width ZERO_WIDTH_SPACE = 0%nat.
Hypothesis single_width : forall c, 32 <= c <= 126 -> char_width c = 1%nat.

Lemma cell_len_app (a b : pystr) :
  cell_len char_width (a ++ b)
  = (cell_len char_width a + cell_len char_width b)%nat.
Proof.
  unfold cell_len. rewrite map_app. induction (map char_width a); simpl;
    [reflexivity|lia].
Qed.

Lemma cell_len_printable (l : pystr) :
  Forall (fun c => 32 <= c <= 126) l -> cell_len char_width l = len l.
Proof.
  unfold cell_len, len. induction 1 as [|c l Hc Hl IH]; simpl;
    [reflexivity|]. rewrite single_width by done. by rewrite IH.
Qed.

Lemma cell_len_pad_line (line : pystr) (width : nat) :
  Forall (fun c => 32 <= c <= 126) line ->
  (len line <= width)%nat ->
  cell_len char_width (pad_line width line) = width.
Proof.
  intros Hp Hw. unfold pad_line. rewrite !cell_len_app.
  unfold cell_len at 1 3. simpl. rewrite zero_width.
  rewrite cell_len_printable, len_format_s by
    (done || (unfold format_s; apply Forall_app; split;
              [done|apply Forall_forall; intros c Hc;
               apply list_elem_of_In, repeat_spec in Hc; subst;
               unfold SPACE; lia])).
  lia.
Qed.


End LogoFacts.

Lemma sample_char_width_single (c : N) :
  32 <= c <= 126 -> Sample.char_width c = 1%nat.
Proof.
  intros H. unfold Sample.char_width.
  destruct (N.eqb_spec c ZERO_WIDTH_SPACE) as [->|_]; [|reflexivity].
  unfold ZERO_WIDTH_SPACE in H. lia.
Defined.


Example sample_logo_lines :
  (fun r => match r with
            | Ok t => map len (split_lines (Rich.plain t))
            | Raise _ => []
            end) (get_logo Sample.world Process_init).2
  = [11; 11; 11]%nat.
Proof. vm_compute. reflexivity. Qed.

(** ** Labels of the tree *)

Lemma covers_shift (n : nat) (sp : Rich.Span) (i : nat) :
  Rich.covers (Rich.shift n sp) i = (n <=? i)%nat && Rich.covers sp (i - n).
Proof.
  unfold Rich.covers, Rich.shift. simpl.
  destruct (Nat.leb_spec (n + Rich.span_start sp) i),
    (Nat.ltb_spec i (n + Rich.span_end sp)), (Nat.leb_spec n i),
    (Nat.leb_spec (Rich.span_start sp) (i - n)),
    (Nat.ltb_spec (i - n) (Rich.span_end sp)); simpl; try reflexivity; lia.
Qed.

Lemma bold_in_shift (n : nat) (sps : list Rich.Span) (i : nat) :
  existsb (fun sp => Rich.covers sp i && Rich.is_bold_style (Rich.span_style sp))
    (map (Rich.shift n) sps)
  = (n <=? i)%nat
    && existsb (fun sp => Rich.covers sp (i - n)
                          && Rich.is_bold_style (Rich.span_style sp)) sps.
Proof.
  induction sps as [|sp sps IH]; simpl.
  - by rewrite andb_false_r.
  - rewrite IH, covers_shift.
    destruct (n <=? i)%nat; reflexivity.
Qed.

Lemma bold_at_mk (s : pystr) sty j nw (i : nat) :
  Rich.bold_at (Rich.mk s sty j nw) i = false.
Proof. reflexivity. Qed.

Lemma bold_at_add_str (t : Rich.Text) (s : pystr) (i : nat) :
  Rich.bold_at (Rich.add_str t s) i = Rich.bold_at t i.
Proof. reflexivity. Qed.

Lemma bold_at_apply_meta (m : Rich.Meta) (t : Rich.Text) (i : nat) :
  Rich.bold_at (Rich.apply_meta m t) i = Rich.bold_at t i.
Proof.
  unfold Rich.apply_meta, Rich.stylize, Rich.bold_at.
  cbn [Rich.style_truthy].
  destruct (Rich.plain t); [reflexivity|]. simpl.
  rewrite existsb_app. simpl. by rewrite andb_false_r, orb_false_r.
Qed.

Lemma bold_at_stylize_bold (t : Rich.Text) (i : nat) :
  Rich.bold_at (Rich.stylize (Rich.StyleDef "bold") t) i
  = Rich.bold_at t i || (i <? len (Rich.plain t))%nat.
Proof.
  unfold Rich.stylize, Rich.bold_at.
  change (Rich.style_truthy (Rich.StyleDef "bold")) with true. cbv iota.
  destruct (Rich.plain t) as [|c s] eqn:Hp.
  - simpl. by rewrite orb_false_r.
  - cbn [Rich.spans]. rewrite existsb_app. cbn [existsb Rich.span_style].
    unfold Rich.covers. cbn [Rich.span_start Rich.span_end].
    change (Rich.is_bold_style (Rich.StyleDef "bold")) with true.
    by rewrite andb_true_r, orb_false_r.
Qed.

Lemma bold_at_add_text (t other : Rich.Text) (i : nat) :
  Rich.style other = ""%string ->
  (Rich.plain other = [] -> forall j, Rich.bold_at other j = false) ->
  Rich.bold_at (Rich.add_text t other) i
  = Rich.bold_at t i
    || (len (Rich.plain t) <=? i)%nat
       && Rich.bold_at other (i - len (Rich.plain t)).
Proof.
  intros Hs He. unfold Rich.add_text.
  destruct (Rich.plain other) as [|c rest] eqn:Hp.
  - rewrite He by reflexivity. by rewrite andb_false_r, orb_false_r.
  - unfold Rich.bold_at. cbn [Rich.spans]. rewrite Hs.
    change (Rich.style_truthy (Rich.StyleDef "")) with false. cbv iota.
    rewrite !existsb_app. cbn [existsb app]. f_equal.
    apply bold_in_shift.
Qed.

Lemma style_stylize (sty : Rich.Style) (t : Rich.Text) :
  Rich.style (Rich.stylize sty t) = Rich.style t.
Proof.
  unfold Rich.stylize.
  destruct (Rich.style_truthy sty); [|reflexivity].
  by destruct (Rich.plain t).
Qed.

Lemma plain_stylize (sty : Rich.Style) (t : Rich.Text) :
  Rich.plain (Rich.stylize sty t) = Rich.plain t.
Proof.
  unfold Rich.stylize.
  destruct (Rich.style_truthy sty); [|reflexivity].
  destruct (Rich.plain t) eqn:H; simpl; congruence.
Qed.

Lemma plain_add_text (t other : Rich.Text) :
  Rich.plain (Rich.add_text t other) = Rich.plain t ++ Rich.plain other.
Proof.
  unfold Rich.add_text. destruct (Rich.plain other) eqn:H; simpl.
  - by rewrite app_nil_r.
  - reflexivity.
Qed.

(** The icon and the space in front of every label. *)
Lemma icon_prefix (expanded : bool) :
  Rich.add_str (Rich.mk [icon expanded] "" None (Some true)) (lit " ")
  = {| Rich.plain := [icon expanded; SPACE]; Rich.spans := [];
       Rich.style := ""; Rich.justify := None; Rich.no_wrap := Some true |}.
Proof. by destruct expanded. Qed.

(** A label built from a string, hovered or not: no style of its own and
    nothing bold where there is no text. *)
Lemma string_label_facts (text : pystr) (is_hover : bool) :
  let label :=
    if is_hover
    then Rich.stylize (Rich.StyleDef "bold") (Rich.mk text "" None (Some true))
    else Rich.mk text "" None (Some true) in
  Rich.style label = ""%string
  /\ Rich.plain label = Rich.strip_control_codes text
  /\ (Rich.plain label = [] -> forall j, Rich.bold_at label j = false)
  /\ (forall j, Rich.bold_at label j
                = is_hover && (j <? len (Rich.strip_control_codes text))%nat).
Proof.
  intros label. subst label. destruct is_hover.
  - rewrite style_stylize, plain_stylize. cbn [Rich.mk Rich.plain Rich.style].
    split; [reflexivity|]. split; [reflexivity|].
    assert (Hb : forall j,
      Rich.bold_at (Rich.stylize (Rich.StyleDef "bold")
                      (Rich.mk text "" None (Some true))) j
      = (j <? len (Rich.strip_control_codes text))%nat).
    { intros j. by rewrite bold_at_stylize_bold, bold_at_mk. }
    split; [|exact Hb].
    intros He j. rewrite Hb, He. reflexivity.
  - cbn [Rich.mk Rich.plain Rich.style]. by repeat split.
Qed.

(** What [render_label] makes of a string label; see [label_text]. *)
Lemma render_label_of_string
    (rpath : Environment -> option pystr) (node : TreeNode) (raw : pystr)
    (expanded is_cursor is_hover has_focus : bool) :
  node_label node = inl raw ->
  let r := render_label rpath node expanded is_cursor is_hover has_focus in
  let text := Rich.strip_control_codes (label_text rpath node raw is_hover) in
  Rich.plain r.1 = icon expanded :: SPACE :: text
  /\ (forall i, Rich.bold_at r.1 i
                = is_hover && (2 <=? i)%nat && (i <? 2 + len text)%nat)
  /\ r.2 = node.
Proof.
  intros Hl r text. subst r text. unfold render_label, label_of. rewrite Hl.
  set (chosen := label_text rpath node raw is_hover).
  destruct (string_label_facts chosen is_hover) as (Hs & Hp & He & Hb).
  cbv zeta in Hs, Hp, He, Hb.
  split; [|split; [|reflexivity]].
  - cbn [fst]. unfold Rich.apply_meta.
    rewrite plain_stylize, plain_add_text, icon_prefix, Hp. reflexivity.
  - intros i. cbn [fst]. rewrite bold_at_apply_meta.
    rewrite bold_at_add_text by assumption.
    rewrite icon_prefix, Hb. cbn [Rich.plain Rich.bold_at Rich.spans existsb].
    change (len [icon expanded; SPACE]) with 2%nat. cbn [orb].
    destruct is_hover; cbn [andb];
      [|by rewrite andb_false_r].
    destruct (Nat.leb_spec 2 i),
      (Nat.ltb_spec (i - 2) (len (Rich.strip_control_codes chosen))),
      (Nat.ltb_spec i (2 + len (Rich.strip_control_codes chosen)));
      try reflexivity; lia.
Qed.

(** C7 as stated fails: a raw label with a bell character in it, on a
    node whose environment has neither name nor path, is not what the
    rendered label ends in. *)
Lemma label_drops_control_codes :
  let r := render_label Sample.rpath SampleTree.belled_node
             false false false false in
  node_label SampleTree.belled_node = inl [97; 7; 98]
  /\ Rich.plain r.1 = WHITE_CIRCLE :: SPACE :: [97; 98]
  /\ ~ (exists before, Rich.plain r.1 = before ++ [97; 7; 98]).
Proof.
  split; [reflexivity|]. split; [reflexivity|].
  intros [before H]. apply (f_equal (@rev N)) in H.
  rewrite rev_app_distr in H. vm_compute in H.
  injection H as _ H. discriminate.
Qed.

(** C7, amended.  For a node whose raw label is a string, the text of the
    rendered label is taken, when the node is hovered, from the [rpath] of
    its environment, and otherwise from the [name] of the environment or,
    without a name, from its [rpath]; where the field so chosen is missing
    or empty the raw label stands in.  The text shown is the chosen string
    without the control characters that rich text drops (bell, backspace,
    vertical tab, form feed, carriage return): the chosen string itself
    when it holds none.  It follows a filled circle and a space when the
    node is expanded and an empty circle and a space when it is not; its
    characters, and only they, are bold when the node is hovered, and
    nothing is bold when it is not.  The node is left as it was. *)
Theorem label_rendering
    (rpath : Environment -> option pystr) (node : TreeNode) (raw : pystr)
    (expanded is_cursor is_hover has_focus : bool) :
  node_label node = inl raw ->
  let r := render_label rpath node expanded is_cursor is_hover has_focus in
  let from_rpath :=
    match rpath (node_data node) with
    | Some (c :: path) => c :: path
    | _ => raw
    end in
  let chosen :=
    if is_hover then from_rpath
    else match env_name (node_data node) with
         | Some (c :: name) => c :: name
         | _ => from_rpath
         end in
  let text := Rich.strip_control_codes chosen in
  Rich.plain r.1
  = (if expanded then BLACK_CIRCLE else WHITE_CIRCLE) :: SPACE :: text
  /\ (control_free chosen ->
      Rich.plain r.1
      = (if expanded then BLACK_CIRCLE else WHITE_CIRCLE) :: SPACE :: chosen)
  /\ (forall i, Rich.bold_at r.1 i
                = is_hover && (2 <=? i)%nat && (i <? 2 + len text)%nat)
  /\ r.2 = node.
Proof.
  intros Hl r from_rpath chosen text.
  assert (Ht : label_text rpath node raw is_hover = chosen).
  { unfold label_text, chosen, from_rpath, opt_or, or_label.
    destruct is_hover.
    - by destruct (rpath (node_data node)) as [[|c path]|].
    - destruct (env_name (node_data node)) as [[|c name]|]; simpl;
        try reflexivity;
        by destruct (rpath (node_data node)) as [[|c' path]|]. }
  destruct (render_label_of_string rpath node raw expanded is_cursor is_hover
              has_focus Hl) as (Hp & Hb & Hn).
  cbv zeta in Hp, Hb, Hn. rewrite Ht in Hp, Hb. fold text in Hp, Hb.
  fold r in Hp, Hb, Hn.
  split; [exact Hp|]. split; [|split; [exact Hb|exact Hn]].
  intros Hfree. rewrite Hp. unfold text. by rewrite strip_control_free.
Qed.

Lemma label_rendering_witness :
  let r := render_label Sample.rpath Sample.base_node true true true false in
  Rich.plain r.1 = BLACK_CIRCLE :: SPACE :: lit "/opt/conda"
  /\ (control_free (lit "/opt/conda") ->
      Rich.plain r.1 = BLACK_CIRCLE :: SPACE :: lit "/opt/conda")
  /\ (forall i, Rich.bold_at r.1 i
                = true && (2 <=? i)%nat && (i <? 2 + 10)%nat)
  /\ r.2 = Sample.base_node.
Proof.
  apply (label_rendering Sample.rpath Sample.base_node (lit "base")
           true true true false).
  reflexivity.
Defined.

(** The root has neither name nor path: hovered or not, it shows its raw
    label. *)
Example root_label :
  Rich.plain (render_label Sample.rpath Sample.root_node true false true false).1
  = BLACK_CIRCLE :: SPACE :: lit "envs"
  /\ Rich.plain (render_label Sample.rpath Sample.root_node false false false false).1
     = WHITE_CIRCLE :: SPACE :: lit "envs".
Proof. vm_compute. split; reflexivity. Qed.

Lemma unknown_attribute_passes_through_witness :
  let p := Package.__init__ Sample.numpy 0 in
  Package.read Sample.world p "channel"
  = (p, match getattr (Package._record p) "channel" with
        | Ok v => Ok (Package.AValue v)
        | Raise e => Raise e
        end)
  /\ (raises (Package.read Sample.world p "channel").2
      <-> hasattr (Package._record p) "channel" = false).
Proof.
  apply (unknown_attribute_passes_through Sample.world
           (Package.__init__ Sample.numpy 0) "channel").
  vm_compute. reflexivity.
Defined.

Example sample_attribute_reads :
  let p := Package.__init__ Sample.numpy 0 in
  (Package.read Sample.world p "channel").2
  = Ok (Package.AValue (VStr (lit "defaults")))
  /\ (Package.read Sample.world p "name").2
     = Ok (Package.AValue (VStr (lit "numpy")))
  /\ (Package.read Sample.world p "license").2
     = Raise (AttributeError "license").
Proof. vm_compute. repeat split. Qed.

(** * Further properties *)

(** ** The description, read more than once *)

Lemma dict_get_absent (k : pystr) (entries : list (pystr * value))
    (default : value) :
  k ∉ map fst entries -> dict_get k entries default = default.
Proof.
  induction entries as [|[k' v] rest IH]; [reflexivity|].
  cbn [dict_get map fst]. intros Hk.
  rewrite not_elem_of_cons in Hk. destruct Hk as [Hne Hk].
  case_bool_decide; [congruence|]. by apply IH.
Qed.

(** X1.  The first read of [description] whose body returns stores the
    value in the instance: every later read gives that value back without
    consulting the record or the file system, whatever has become of
    them. *)
Theorem description_cached_after_first_read
    (w : World) (p : Package.t) (v : value) :
  Package.description_slot p = None ->
  Package.description w p = Ok v ->
  let p' := (Package.read_description w p).1 in
  (Package.read_description w p).2 = Ok v
  /\ Package._record p' = Package._record p
  /\ Package.update_available p' = Package.update_available p
  /\ forall w', Package.read_description w' p' = (p', Ok v).
Proof.
  intros Hs Hd p'. subst p'. unfold Package.read_description.
  rewrite Hs, Hd. simpl. by repeat split.
Qed.

Lemma description_cached_after_first_read_witness :
  let p := Package.__init__ Sample.zlib 0 in
  let p' := (Package.read_description Sample.world p).1 in
  (Package.read_description Sample.world p).2
  = Ok (VStr (lit "compression library"))
  /\ Package._record p' = Package._record p
  /\ Package.update_available p' = Package.update_available p
  /\ forall w', Package.read_description w' p'
                = (p', Ok (VStr (lit "compression library"))).
Proof.
  apply (description_cached_after_first_read Sample.world
           (Package.__init__ Sample.zlib 0)
           (VStr (lit "compression library"))).
  - reflexivity.
  - reflexivity.
Defined.

(** X2.  A read of [description] that raises stores nothing: the package
    is as it was, so the next read runs the body again and sees the file
    system as it then is. *)
Theorem description_failure_not_cached
    (w : World) (p : Package.t) (e : exn) :
  (Package.read_description w p).2 = Raise e ->
  (Package.read_description w p).1 = p
  /\ Package.description_slot p = None
  /\ forall w', Package.read_description w' (Package.read_description w p).1
                = Package.read_description w' p.
Proof.
  intros H.
  assert (H1 : (Package.read_description w p).1 = p
               /\ Package.description_slot p = None).
  { unfold Package.read_description in *.
    destruct (Package.description_slot p); [discriminate|].
    destruct (Package.description w p) as [v|[]]; try discriminate;
      by split. }
  destruct H1 as [H1 H2]. rewrite H1. by repeat split.
Qed.

Lemma description_failure_not_cached_witness :
  let p := Package.__init__ Sample.numpy 0 in
  (Package.read_description Sample.world p).1 = p
  /\ Package.description_slot p = None
  /\ forall w', Package.read_description w'
                  (Package.read_description Sample.world p).1
                = Package.read_description w' p.
Proof.
  apply (description_failure_not_cached Sample.world
           (Package.__init__ Sample.numpy 0) JSONDecodeError).
  reflexivity.
Defined.

Example description_after_repair :
  let p := (Package.read_description Sample.world
              (Package.__init__ Sample.numpy 0)).1 in
  (Package.read_description SampleTree.repaired p).2 = Ok (VStr (lit "arrays")).
Proof. vm_compute. reflexivity. Qed.

(** X3.  A sidecar that holds a JSON object without a [summary] entry
    gives the empty string, and a sidecar whose object has one gives its
    value, whatever kind of value it is. *)
Theorem description_summary_or_empty
    (w : World) (p : Package.t) (dir : pystr)
    (entries : list (pystr * value)) :
  getattr (Package._record p) "extracted_package_dir" = Ok (VStr dir) ->
  about_json w dir = RegularFile (Ok (VDict entries)) ->
  Package.description w p = Ok (dict_get (lit "summary") entries (VStr []))
  /\ (lit "summary" ∉ map fst entries ->
      Package.description w p = Ok (VStr []))
  /\ (forall v rest, entries = (lit "summary", v) :: rest ->
      Package.description w p = Ok v).
Proof.
  intros Hd Hf.
  assert (H : Package.description w p
              = Ok (dict_get (lit "summary") entries (VStr []))).
  { unfold Package.description, Package.__getattr__. rewrite Hd.
    cbn [fspath]. by rewrite Hf. }
  split; [exact H|]. split.
  - intros Hk. by rewrite H, dict_get_absent.
  - intros v rest ->. rewrite H. cbn [dict_get].
    by case_bool_decide.
Qed.

Lemma description_summary_or_empty_witness :
  let p := Package.__init__ Sample.zlib 0 in
  let entries := [(lit "summary", VStr (lit "compression library"))] in
  Package.description Sample.world p
  = Ok (dict_get (lit "summary") entries (VStr []))
  /\ (lit "summary" ∉ map fst entries ->
      Package.description Sample.world p = Ok (VStr []))
  /\ (forall v rest, entries = (lit "summary", v) :: rest ->
      Package.description Sample.world p = Ok v).
Proof.
  apply (description_summary_or_empty Sample.world
           (Package.__init__ Sample.zlib 0) Sample.zlib_dir).
  - reflexivity.
  - reflexivity.
Defined.

(** X4.  When the sidecar decodes to something that is not a JSON object,
    the [AttributeError] raised on [.get] inside the property sends the
    read of [description] to [__getattr__]: the read gives the
    [description] attribute of the wrapped record, or its
    [AttributeError], and nothing is stored. *)
Theorem description_of_non_object_falls_through
    (w : World) (p : Package.t) (dir : pystr) (doc : value) :
  Package.description_slot p = None ->
  getattr (Package._record p) "extracted_package_dir" = Ok (VStr dir) ->
  about_json w dir = RegularFile (Ok doc) ->
  (forall entries, doc <> VDict entries) ->
  Package.description w p = Raise (AttributeError "get")
  /\ Package.read_description w p
     = (p, getattr (Package._record p) "description").
Proof.
  intros Hs Hd Hf Hdoc.
  assert (H : Package.description w p = Raise (AttributeError "get")).
  { unfold Package.description, Package.__getattr__. rewrite Hd.
    cbn [fspath]. rewrite Hf. simpl.
    destruct doc; try reflexivity. by destruct (Hdoc entries). }
  split; [exact H|].
  unfold Package.read_description. by rewrite Hs, H.
Qed.

Lemma description_of_non_object_falls_through_witness :
  let p := Package.__init__ SampleTree.odd 0 in
  Package.description SampleTree.odd_world p = Raise (AttributeError "get")
  /\ Package.read_description SampleTree.odd_world p
     = (p, getattr (Package._record p) "description").
Proof.
  apply (description_of_non_object_falls_through SampleTree.odd_world
           (Package.__init__ SampleTree.odd 0) SampleTree.odd_dir (VList [])).
  - reflexivity.
  - reflexivity.
  - reflexivity.
  - intros entries. discriminate.
Defined.

Example description_from_the_record :
  (Package.read_description SampleTree.odd_world
     (Package.__init__ SampleTree.odd 0)).2
  = Ok (VStr (lit "from the record")).
Proof. vm_compute. reflexivity. Qed.

(** ** More on the listing *)

Section ListingFacts.
Variable prefix : Environment -> pystr.
Variable w : World.

(** What a call for an environment with a readable store returns, from
    any state a run of calls has left. *)
Lemma lister_returns (earlier : list Environment) (env : Environment)
    (records : list PrefixRecord) :
  iter_records w (prefix env) = Ok records ->
  exists a pos,
    (list_packages_for_environment prefix w
       (run prefix w Process_init earlier) env).2 = Ok a
    /\ heap (list_packages_for_environment prefix w
               (run prefix w Process_init earlier) env).1 !! a
       = Some (sorted Package.name (wrap w pos records)).
Proof.
  intros Hi. set (s := run prefix w Process_init earlier).
  assert (Hinv : lister_inv prefix w s)
    by apply lister_inv_run, lister_inv_init.
  pose proof (lister_inv_step prefix w s env Hinv) as Hinv'.
  destruct (list_packages_for_environment prefix w s env) as [s1 r1] eqn:Hcall.
  assert (Hok : exists a, r1 = Ok a).
  { destruct (lister_cases prefix w s env)
      as [(a & _ & H)|[(rs & _ & _ & H)|(e & _ & He & _)]];
      [| |congruence]; rewrite Hcall in H; injection H as _ ->; by eexists. }
  destruct Hok as [a ->]. exists a.
  pose proof (lister_ok_cached prefix w s env s1 a Hcall) as Hc.
  simpl in Hinv'.
  destruct (inv_cached _ _ _ Hinv' env a Hc) as (rs & pos & H1 & H2).
  assert (rs = records) as -> by congruence.
  by exists pos.
Qed.

Lemma with_key_wrap (k : pystr) (pos : nat) (records : list PrefixRecord) :
  map Package._record (with_key Package.name k (wrap w pos records))
  = List.filter (fun r => bool_decide (rec_name r = k)) records.
Proof.
  revert pos. induction records as [|r rs IH]; intros pos; [reflexivity|].
  unfold with_key in *. cbn [wrap List.filter].
  change (Package.name (Package.__init__ r (random_draws w pos)))
    with (rec_name r).
  destruct (bool_decide (rec_name r = k)); cbn [map]; by rewrite IH.
Qed.

Lemma wrap_lookup (pos : nat) (records : list PrefixRecord) (i : nat) :
  wrap w pos records !! i
  = (fun r => Package.__init__ r (random_draws w (pos + i))) <$> records !! i.
Proof.
  revert pos i. induction records as [|r rs IH]; intros pos [|i]; simpl;
    try reflexivity.
  - by rewrite Nat.add_0_r.
  - rewrite IH. by rewrite Nat.add_succ_r.
Qed.

(** X5.  The listing is stable: the packages of one name stand in the
    order in which the metadata store gave their records. *)
Theorem listing_keeps_store_order_among_equal_names
    (earlier : list Environment) (env : Environment)
    (records : list PrefixRecord) :
  iter_records w (prefix env) = Ok records ->
  let r := list_packages_for_environment prefix w
             (run prefix w Process_init earlier) env in
  exists a l,
    r.2 = Ok a
    /\ heap r.1 !! a = Some l
    /\ forall k,
         map Package._record (with_key Package.name k l)
         = List.filter (fun r => bool_decide (rec_name r = k)) records.
Proof.
  intros Hi r. subst r.
  destruct (lister_returns earlier env records Hi) as (a & pos & H1 & H2).
  exists a, (sorted Package.name (wrap w pos records)).
  split; [exact H1|]. split; [exact H2|].
  intros k. by rewrite sorted_stable, with_key_wrap.
Qed.

(** X6.  A call that reads a store builds one package per record, the
    [i]-th from the [i]-th next value of [random.random], and its flag
    says whether that value exceeds 0.8; a call answered from the cache
    and a call whose store raises build nothing and draw nothing. *)
Theorem listing_draws_one_value_per_record
    (s : Process) (env : Environment) :
  let s' := (list_packages_for_environment prefix w s env).1 in
  match lister_cache s !! env, iter_records w (prefix env) with
  | None, Ok records =>
      drawn s' = (drawn s + length records)%nat
      /\ heap s' = heap s ++ [sorted Package.name (wrap w (drawn s) records)]
      /\ forall i r, records !! i = Some r ->
           exists p, wrap w (drawn s) records !! i = Some p
                     /\ Package._record p = r
                     /\ Package.update_available p
                        = gt_0_8 (random_draws w (drawn s + i))
  | _, _ => drawn s' = drawn s /\ heap s' = heap s
  end.
Proof.
  intros s'. subst s'.
  destruct (lister_cases prefix w s env)
    as [(a & Ha & ->)|[(rs & Hn & Hi & ->)|(e & Hn & Hi & ->)]].
  - rewrite Ha. by split.
  - rewrite Hn, Hi. simpl. split; [reflexivity|]. split; [reflexivity|].
    intros i r Hr. rewrite wrap_lookup, Hr. simpl. eexists.
    split; [reflexivity|]. by split.
  - rewrite Hn, Hi. simpl. split; [lia|reflexivity].
Qed.

End ListingFacts.

Lemma listing_keeps_store_order_among_equal_names_witness :
  let r := list_packages_for_environment Sample.prefix Sample.world
             (run Sample.prefix Sample.world Process_init [Sample.locked])
             Sample.base in
  exists a l,
    r.2 = Ok a
    /\ heap r.1 !! a = Some l
    /\ forall k,
         map Package._record (with_key Package.name k l)
         = List.filter (fun r => bool_decide (rec_name r = k))
             [Sample.zlib; Sample.numpy; Sample.requests].
Proof.
  apply (listing_keeps_store_order_among_equal_names Sample.prefix
           Sample.world [Sample.locked] Sample.base
           [Sample.zlib; Sample.numpy; Sample.requests]).
  reflexivity.
Defined.

(** ** Clicks that list *)

Section ClickFacts.
Variable prefix : Environment -> pystr.
Variable w : World.

Lemma click_outcome (app : App) (node : TreeNode) :
  opt_truthy (env_path (node_data node)) = true ->
  handle_tree_click prefix w app node
  = match list_packages_for_environment prefix w (proc app) (node_data node) with
    | (s, Ok a) =>
        ({| proc := s; package_list := Some (TablePane a);
            expanded_nodes := {[ node_id node ]} ∪ expanded_nodes app |}, Ok tt)
    | (s, Raise e) =>
        ({| proc := s; package_list := package_list app;
            expanded_nodes := expanded_nodes app |}, Raise e)
    end.
Proof.
  intros Hp. unfold handle_tree_click, show_package_table. rewrite Hp. simpl.
  by destruct (list_packages_for_environment prefix w (proc app)
                 (node_data node)) as [s [a|e]].
Qed.

(** What a click that ends well leaves behind. *)
Lemma click_lists_then_repeats_aux (app app1 : App) (node : TreeNode) :
  opt_truthy (env_path (node_data node)) = true ->
  handle_tree_click prefix w app node = (app1, Ok tt) ->
  exists a,
    lister_cache (proc app1) !! node_data node = Some a
    /\ package_list app1 = Some (TablePane a).
Proof.
  intros Hp H. rewrite click_outcome in H by done.
  destruct (list_packages_for_environment prefix w (proc app) (node_data node))
    as [s [a|e]] eqn:Hcall; [|discriminate].
  injection H as <-. exists a. simpl.
  split; [by eapply lister_ok_cached|reflexivity].
Qed.

(** X7.  A click that ends well on a node with a path puts the table of
    the returned list in the pane and adds the node to the expanded ones,
    leaving the others expanded; a second click on the node shows the same
    list object, reads no store, builds no list and changes neither pane
    nor expanded nodes. *)
Theorem click_lists_then_repeats
    (app app1 : App) (node : TreeNode) :
  opt_truthy (env_path (node_data node)) = true ->
  handle_tree_click prefix w app node = (app1, Ok tt) ->
  exists a,
    list_packages_for_environment prefix w (proc app) (node_data node)
    = (proc app1, Ok a)
    /\ package_list app1 = Some (TablePane a)
    /\ expanded_nodes app1 = {[ node_id node ]} ∪ expanded_nodes app
    /\ handle_tree_click prefix w app1 node
       = ({| proc := log_call (node_data node) (proc app1);
             package_list := Some (TablePane a);
             expanded_nodes := expanded_nodes app1 |}, Ok tt)
    /\ store_reads (log_call (node_data node) (proc app1))
       = store_reads (proc app1)
    /\ heap (log_call (node_data node) (proc app1)) = heap (proc app1).
Proof.
  intros Hp H. rewrite click_outcome in H by done.
  destruct (list_packages_for_environment prefix w (proc app) (node_data node))
    as [s [a|e]] eqn:Hcall; [|discriminate].
  injection H as <-. exists a. simpl.
  split; [reflexivity|]. split; [reflexivity|]. split; [reflexivity|].
  split; [|by split].
  rewrite click_outcome by done. simpl.
  rewrite (lister_hit prefix w s (node_data node) a)
    by (by eapply lister_ok_cached).
  f_equal. f_equal. by rewrite (assoc_L (∪)), (idemp_L (∪)).
Qed.

(** X8.  Showing the logo touches nothing the lister keeps: lists, cache
    and ledgers stay, and so do the expanded nodes; the pane shows the logo
    when [get_logo] returns and is left alone when it raises.  A click on
    a node listed before then brings back the very list it showed, with no
    read of the store. *)
Theorem logo_then_click_restores_listing
    (app app1 : App) (node : TreeNode) :
  opt_truthy (env_path (node_data node)) = true ->
  handle_tree_click prefix w app node = (app1, Ok tt) ->
  let shown := action_display_logo w app1 in
  let again := handle_tree_click prefix w shown.1 node in
  heap (proc shown.1) = heap (proc app1)
  /\ lister_cache (proc shown.1) = lister_cache (proc app1)
  /\ store_reads (proc shown.1) = store_reads (proc app1)
  /\ lister_calls (proc shown.1) = lister_calls (proc app1)
  /\ expanded_nodes shown.1 = expanded_nodes app1
  /\ match shown.2 with
     | Ok _ => exists logo, get_logo w (proc app1) = (proc shown.1, Ok logo)
                            /\ package_list shown.1 = Some (LogoPane logo)
     | Raise _ => package_list shown.1 = package_list app1
     end
  /\ again.2 = Ok tt
  /\ package_list again.1 = package_list app1
  /\ store_reads (proc again.1) = store_reads (proc app1)
  /\ heap (proc again.1) = heap (proc app1).
Proof.
  intros Hp H shown again.
  destruct (click_lists_then_repeats_aux app app1 node Hp H)
    as (a & Hc & Hpane).
  assert (Hs : heap (proc shown.1) = heap (proc app1)
               /\ lister_cache (proc shown.1) = lister_cache (proc app1)
               /\ store_reads (proc shown.1) = store_reads (proc app1)
               /\ lister_calls (proc shown.1) = lister_calls (proc app1)
               /\ expanded_nodes shown.1 = expanded_nodes app1
               /\ match shown.2 with
                  | Ok _ => exists logo,
                      get_logo w (proc app1) = (proc shown.1, Ok logo)
                      /\ package_list shown.1 = Some (LogoPane logo)
                  | Raise _ => package_list shown.1 = package_list app1
                  end).
  { subst shown. unfold action_display_logo, get_logo.
    destruct (logo_cache (proc app1)) as [t|]; simpl.
    - repeat split; eauto.
    - destruct (logo_asset w ≫= build_logo) as [t|e]; simpl;
        repeat split; eauto. }
  destruct Hs as (H1 & H2 & H3 & H4 & H5 & H6).
  repeat (split; [assumption|]).
  subst again. rewrite click_outcome by done.
  rewrite (lister_hit prefix w (proc shown.1) (node_data node) a)
    by (by rewrite H2). simpl.
  rewrite Hpane, H3, H1. by repeat split.
Qed.

End ClickFacts.

Lemma click_lists_then_repeats_witness :
  let app1 := (handle_tree_click Sample.prefix Sample.world Sample.app
                 Sample.base_node).1 in
  exists a,
    list_packages_for_environment Sample.prefix Sample.world
      (proc Sample.app) Sample.base
    = (proc app1, Ok a)
    /\ package_list app1 = Some (TablePane a)
    /\ expanded_nodes app1 = {[ 1 ]} ∪ expanded_nodes Sample.app
    /\ handle_tree_click Sample.prefix Sample.world app1 Sample.base_node
       = ({| proc := log_call Sample.base (proc app1);
             package_list := Some (TablePane a);
             expanded_nodes := expanded_nodes app1 |}, Ok tt)
    /\ store_reads (log_call Sample.base (proc app1)) = store_reads (proc app1)
    /\ heap (log_call Sample.base (proc app1)) = heap (proc app1).
Proof.
  apply (click_lists_then_repeats Sample.prefix Sample.world Sample.app
           (handle_tree_click Sample.prefix Sample.world Sample.app
              Sample.base_node).1 Sample.base_node).
  - reflexivity.
  - reflexivity.
Defined.

Lemma logo_then_click_restores_listing_witness :
  let app1 := (handle_tree_click Sample.prefix Sample.world Sample.app
                 Sample.base_node).1 in
  let shown := action_display_logo Sample.world app1 in
  let again := handle_tree_click Sample.prefix Sample.world shown.1
                 Sample.base_node in
  heap (proc shown.1) = heap (proc app1)
  /\ lister_cache (proc shown.1) = lister_cache (proc app1)
  /\ store_reads (proc shown.1) = store_reads (proc app1)
  /\ lister_calls (proc shown.1) = lister_calls (proc app1)
  /\ expanded_nodes shown.1 = expanded_nodes app1
  /\ match shown.2 with
     | Ok _ => exists logo,
         get_logo Sample.world (proc app1) = (proc shown.1, Ok logo)
         /\ package_list shown.1 = Some (LogoPane logo)
     | Raise _ => package_list shown.1 = package_list app1
     end
  /\ again.2 = Ok tt
  /\ package_list again.1 = package_list app1
  /\ store_reads (proc again.1) = store_reads (proc app1)
  /\ heap (proc again.1) = heap (proc app1).
Proof.
  apply (logo_then_click_restores_listing Sample.prefix Sample.world
           Sample.app
           (handle_tree_click Sample.prefix Sample.world Sample.app
              Sample.base_node).1 Sample.base_node).
  - reflexivity.
  - reflexivity.
Defined.

(** ** More on the logo *)

Lemma py_max_lines (text : pystr) :
  exists width, py_max (map len (split_lines text)) = Ok width.
Proof.
  pose proof (split_lines_nonempty text).
  destruct (split_lines text); [done|]. by eexists.
Qed.

Lemma split_lines_clean (text : pystr) :
  Forall (Forall (fun c => c <> NEWLINE)) (split_lines text).
Proof.
  assert (H : Forall (fun c => c = NEWLINE \/ True) text).
  { apply Forall_forall. intros c _. by right. }
  apply split_lines_Forall in H.
  eapply Forall_impl; [exact H|]. intros l Hl.
  eapply Forall_impl; [exact Hl|]. by intros c [? _].
Qed.

Lemma pad_line_clean (width : nat) (line : pystr) :
  Forall (fun c => c <> NEWLINE) line ->
  Forall (fun c => c <> NEWLINE) (pad_line width line).
Proof.
  intros H. unfold pad_line, format_s. rewrite !Forall_app.
  split; [by repeat constructor|]. split; [|by repeat constructor].
  split; [exact H|].
  apply Forall_forall. intros c Hin.
  apply list_elem_of_In, repeat_spec in Hin. by subst.
Qed.

Lemma fold_max_attained (ns : list nat) (n : nat) :
  fold_left Nat.max ns n = n \/ Exists (fun k => k = fold_left Nat.max ns n) ns.
Proof.
  revert n. induction ns as [|k ns IH]; intros n; simpl; [by left|].
  destruct (IH (Nat.max n k)) as [H|H].
  - rewrite H. destruct (Nat.max_spec n k) as [[_ ->]|[_ ->]];
      [right; by left|by left].
  - right. by right.
Qed.

Lemma py_max_attained (ns : list nat) (m : nat) :
  py_max ns = Ok m -> Exists (fun k => k = m) ns.
Proof.
  destruct ns as [|n ns]; [discriminate|]. intros [= <-].
  destruct (fold_max_attained ns n) as [H|H]; [left; by rewrite H|by right].
Qed.

Lemma split_lines_control_free (text : pystr) :
  control_free text -> Forall control_free (split_lines text).
Proof.
  intros H.
  assert (H' : Forall (fun c => c = NEWLINE
                               \/ Rich.is_control_code c = false) text).
  { eapply Forall_impl; [exact H|]. intros c Hc. by right. }
  apply split_lines_Forall in H'.
  eapply Forall_impl; [exact H'|]. intros l Hl.
  eapply Forall_impl; [exact Hl|]. by intros c [_ ?].
Qed.

Lemma control_free_app (a b : pystr) :
  control_free (a ++ b) <-> control_free a /\ control_free b.
Proof. apply Forall_app. Qed.

Lemma logo_built_for_any_text_aux (text : pystr) :
  control_free text ->
  exists (t : Rich.Text) (width : nat),
    build_logo text = Ok t
    /\ py_max (map len (split_lines text)) = Ok width
    /\ split_lines (Rich.plain t) = map (pad_line width) (split_lines text).
Proof.
  intros Hfree. destruct (py_max_lines text) as [width Hm].
  exists (Rich.mk (join_lines (map (pad_line width) (split_lines text)))
            "green" (Some "center"%string) None), width.
  split; [unfold build_logo; by rewrite Hm|]. split; [exact Hm|].
  rewrite plain_of_padded_lines by (by apply split_lines_control_free).
  apply split_join_lines.
  - pose proof (split_lines_nonempty text).
    destruct (split_lines text); [done|discriminate].
  - apply Forall_map. eapply Forall_impl; [apply split_lines_clean|].
    intros l. apply pad_line_clean.
Qed.

(** X9.  Whatever text the asset holds, building the logo does not raise
    (there is always a line to take the maximum over): it gives a green,
    centred text without spans, made of the padded lines joined by line
    breaks and stripped of the control characters that rich text drops.
    When the asset holds none of those characters, the text built has one
    line per line of the asset, each the line of the asset between two
    zero width spaces with spaces behind it, and all of the same number
    of characters: two more than the longest line of the asset. *)
Theorem logo_built_for_any_text (text : pystr) :
  exists (t : Rich.Text) (width : nat),
    build_logo text = Ok t
    /\ py_max (map len (split_lines text)) = Ok width
    /\ Forall (fun line => len line <= width)%nat (split_lines text)
    /\ Exists (fun line => len line = width) (split_lines text)
    /\ Rich.plain t
       = Rich.strip_control_codes
           (join_lines (map (pad_line width) (split_lines text)))
    /\ (control_free text ->
        split_lines (Rich.plain t) = map (pad_line width) (split_lines text)
        /\ Forall (fun l => len l = (width + 2)%nat)
             (split_lines (Rich.plain t)))
    /\ Rich.style t = "green"%string
    /\ Rich.justify t = Some "center"%string
    /\ Rich.spans t = [].
Proof.
  destruct (py_max_lines text) as [width Hm].
  pose proof (py_max_bounds _ _ Hm) as Hb. rewrite Forall_map in Hb.
  exists (Rich.mk (join_lines (map (pad_line width) (split_lines text)))
            "green" (Some "center"%string) None), width.
  split; [unfold build_logo; by rewrite Hm|].
  split; [exact Hm|]. split; [exact Hb|]. split.
  { apply py_max_attained in Hm.
    apply Exists_exists in Hm as (n & Hin & ->).
    apply list_elem_of_In, in_map_iff in Hin.
    destruct Hin as (l & Hl & Hin). apply Exists_exists.
    exists l. split; [by apply list_elem_of_In|exact Hl]. }
  split; [reflexivity|]. split; [|by repeat split].
  intros Hfree.
  assert (Hsplit :
    split_lines (Rich.plain
      (Rich.mk (join_lines (map (pad_line width) (split_lines text)))
         "green" (Some "center"%string) None))
    = map (pad_line width) (split_lines text)).
  { rewrite plain_of_padded_lines by (by apply split_lines_control_free).
    apply split_join_lines.
    - pose proof (split_lines_nonempty text).
      destruct (split_lines text); [done|discriminate].
    - apply Forall_map. eapply Forall_impl; [apply split_lines_clean|].
      intros l. apply pad_line_clean. }
  split; [exact Hsplit|].
  rewrite Hsplit. apply Forall_map.
  eapply Forall_impl; [exact Hb|]. intros l Hl. simpl in *.
  unfold pad_line. unfold len in *. rewrite !length_app. simpl.
  fold (len (format_s l width)). rewrite len_format_s by exact Hl. lia.
Qed.

(** The real asset could hold such characters: with a bell character in
    its first line, the lines of the logo differ in length. *)
Example belled_logo_lines :
  (fun r => match r with
            | Ok t => map len (split_lines (Rich.plain t))
            | Raise _ => []
            end) (build_logo SampleTree.belled_logo)
  = [4; 5]%nat.
Proof. vm_compute. reflexivity. Qed.

(** X10.  An asset without control characters that ends in a line break
    gives the logo the lines of the text before the break, no wider than
    without it, and one more line after them that holds nothing but the
    two zero width spaces and the spaces between them. *)
Theorem logo_of_trailing_line_break (text : pystr) :
  control_free text ->
  exists (t : Rich.Text) (width : nat),
    build_logo (text ++ [NEWLINE]) = Ok t
    /\ py_max (map len (split_lines text)) = Ok width
    /\ split_lines (text ++ [NEWLINE]) = split_lines text ++ [[]]
    /\ split_lines (Rich.plain t)
       = map (pad_line width) (split_lines text)
         ++ [[ZERO_WIDTH_SPACE] ++ repeat SPACE width ++ [ZERO_WIDTH_SPACE]].
Proof.
  intros Hfree.
  assert (Hfree' : control_free (text ++ [NEWLINE])).
  { apply control_free_app. split; [exact Hfree|by repeat constructor]. }
  destruct (logo_built_for_any_text_aux (text ++ [NEWLINE]) Hfree')
    as (t & width & Hb & Hm & Hs).
  exists t, width. split; [exact Hb|].
  assert (Hsp : split_lines (text ++ [NEWLINE]) = split_lines text ++ [[]]).
  { clear. induction text as [|c text IH]; [reflexivity|].
    simpl. destruct (c =? NEWLINE); rewrite IH; [reflexivity|].
    pose proof (split_lines_nonempty text).
    by destruct (split_lines text). }
  rewrite Hsp in Hm. split.
  { rewrite <- Hm. clear. pose proof (split_lines_nonempty text) as Hne.
    destruct (split_lines text) as [|l ls]; [done|]. simpl. f_equal.
    rewrite map_app, fold_left_app. simpl. lia. }
  split; [exact Hsp|].
  rewrite Hs, Hsp, map_app. simpl.
  unfold pad_line at 2, format_s. simpl. by rewrite Nat.sub_0_r.
Qed.

Lemma logo_of_trailing_line_break_witness :
  exists (t : Rich.Text) (width : nat),
    build_logo (Sample.logo ++ [NEWLINE]) = Ok t
    /\ py_max (map len (split_lines Sample.logo)) = Ok width
    /\ split_lines (Sample.logo ++ [NEWLINE]) = split_lines Sample.logo ++ [[]]
    /\ split_lines (Rich.plain t)
       = map (pad_line width) (split_lines Sample.logo)
         ++ [[ZERO_WIDTH_SPACE] ++ repeat SPACE width ++ [ZERO_WIDTH_SPACE]].
Proof.
  apply (logo_of_trailing_line_break Sample.logo).
  apply (bool_decide_unpack _). vm_compute. exact I.
Defined.

(** X11.  While the asset cannot be read, [get_logo] raises the exception
    of the read on every call and remembers nothing: each call goes to
    the disk again. *)
Theorem unreadable_logo_is_read_again
    (w : World) (s : Process) (e : exn) (n : nat) :
  logo_asset w = Raise e ->
  logo_cache s = None ->
  let s' := get_logo_again w n s in
  get_logo w s' = (set_logo None s', Raise e)
  /\ logo_cache s' = None
  /\ logo_reads s' = (logo_reads s + n)%nat
  /\ lister_cache s' = lister_cache s
  /\ heap s' = heap s.
Proof.
  intros Ha Hc s'. subst s'.
  assert (Hstep : forall s0, logo_cache s0 = None ->
            get_logo w s0 = (set_logo None s0, Raise e)).
  { intros s0 H0. unfold get_logo. by rewrite H0, Ha. }
  induction n as [|n IH]; simpl.
  - split; [by apply Hstep|]. split; [exact Hc|].
    split; [lia|by split].
  - destruct IH as (IH1 & IH2 & IH3 & IH4 & IH5).
    unfold get_logo_again in *. simpl. rewrite IH1. simpl.
    split; [by apply Hstep|]. split; [reflexivity|].
    split; [lia|by split].
Qed.

Lemma unreadable_logo_is_read_again_witness :
  let s' := get_logo_again SampleTree.repaired 3 Process_init in
  get_logo SampleTree.repaired s' = (set_logo None s', Raise FileNotFoundError)
  /\ logo_cache s' = None
  /\ logo_reads s' = (logo_reads Process_init + 3)%nat
  /\ lister_cache s' = lister_cache Process_init
  /\ heap s' = heap Process_init.
Proof.
  apply (unreadable_logo_is_read_again SampleTree.repaired Process_init
           FileNotFoundError 3).
  - reflexivity.
  - reflexivity.
Defined.

(** ** The memo in front of [render_label] *)

Lemma lru_find_elem (k : RenderKey) (cache : list (RenderKey * Rich.Text))
    (t : Rich.Text) :
  lru_find k cache = Some t -> (k, t) ∈ cache.
Proof.
  induction cache as [|[k' t'] rest IH]; simpl; [discriminate|].
  case_bool_decide as Hk.
  - intros [= <-]. subst. by left.
  - intros Hf. right. by apply IH.
Qed.

Lemma lru_drop_subset (k : RenderKey) (cache : list (RenderKey * Rich.Text))
    (x : RenderKey * Rich.Text) :
  x ∈ lru_drop k cache -> x ∈ cache.
Proof.
  induction cache as [|[k' t'] rest IH]; simpl; [done|].
  case_bool_decide.
  - by right.
  - rewrite !elem_of_cons. intros [->|Hx]; [by left|right; by apply IH].
Qed.

Lemma lru_drop_length (k : RenderKey) (cache : list (RenderKey * Rich.Text))
    (t : Rich.Text) :
  lru_find k cache = Some t -> S (length (lru_drop k cache)) = length cache.
Proof.
  induction cache as [|[k' t'] rest IH]; simpl; [discriminate|].
  case_bool_decide; [reflexivity|]. intros Hf. simpl. by rewrite IH.
Qed.

Lemma lru_store_length (k : RenderKey) (t : Rich.Text)
    (cache : list (RenderKey * Rich.Text)) :
  (length (lru_store k t cache) <= lru_maxsize)%nat.
Proof. unfold lru_store. rewrite length_take. lia. Qed.

Lemma lru_store_subset (k : RenderKey) (t : Rich.Text)
    (cache : list (RenderKey * Rich.Text)) (x : RenderKey * Rich.Text) :
  x ∈ lru_store k t cache -> x = (k, t) \/ x ∈ cache.
Proof.
  unfold lru_store. intros H.
  apply (subseteq_take lru_maxsize) in H. by apply elem_of_cons in H.
Qed.

Section TreeFacts.
Variable rpath : Environment -> option pystr.

(** X12.  For a tree whose nodes carry string labels, the memo in front
    of [render_label] cannot be told from the body: whether the key is
    remembered or not, [render_node] returns what the body computes for
    the node and its flags.  The memo stays sound, never holds more than
    128 labels, and rendering changes neither focus nor hover. *)
Theorem render_node_memo_is_transparent
    (nodes : gmap N TreeNode) (tree : EnvironmentTree) (opened : gset N)
    (node registered : TreeNode) :
  string_labelled nodes ->
  cache_sound rpath nodes (label_cache tree) ->
  (length (label_cache tree) <= lru_maxsize)%nat ->
  nodes !! node_id node = Some registered ->
  with_cursor (node_is_cursor node) registered = node ->
  let r := render_node rpath tree opened node in
  r.2 = render_label rpath node
          (bool_decide (node_id node ∈ opened))
          (node_is_cursor node)
          (bool_decide (hover_node tree = Some (node_id node)))
          (has_focus tree)
  /\ cache_sound rpath nodes (label_cache r.1)
  /\ (length (label_cache r.1) <= lru_maxsize)%nat
  /\ has_focus r.1 = has_focus tree
  /\ hover_node r.1 = hover_node tree.
Proof.
  intros Hstr Hsound Hlen Hreg Hnode r. subst r.
  unfold render_node, render_label_cached.
  set (e := bool_decide (node_id node ∈ opened)).
  set (c := node_is_cursor node).
  set (h := bool_decide (hover_node tree = Some (node_id node))).
  set (f := has_focus tree).
  destruct (Hstr _ _ Hreg) as [Hid [raw Hraw]].
  assert (Hlabel : node_label node = inl raw) by (by rewrite <- Hnode).
  destruct (lru_find (node_id node, e, c, h, f) (label_cache tree))
    as [t|] eqn:Hfind; simpl.
  - pose proof (lru_find_elem _ _ _ Hfind) as Hin.
    destruct (Hsound _ _ _ _ _ _ Hin) as (node1 & H1 & ->).
    assert (node1 = registered) as -> by congruence.
    fold c in Hnode. rewrite Hnode.
    split.
    { destruct (render_label_of_string rpath node raw e c h f Hlabel)
        as (_ & _ & H2).
      by rewrite <- H2 at 2; destruct (render_label rpath node e c h f). }
    split.
    { intros id e' c' h' f' t' Ht'. unfold lru_touch in Ht'.
      apply elem_of_cons in Ht' as [Ht'|Ht'].
      - injection Ht' as -> -> -> -> -> ->. exists registered.
        split; [exact Hreg|]. by rewrite Hnode.
      - apply lru_drop_subset in Ht'. by eapply Hsound. }
    split; [|by split].
    unfold lru_touch. simpl. rewrite (lru_drop_length _ _ _ Hfind). exact Hlen.
  - split; [reflexivity|]. split.
    { intros id e' c' h' f' t' Ht'.
      apply lru_store_subset in Ht' as [Ht'|Ht'].
      - injection Ht' as -> -> -> -> -> ->. exists registered.
        split; [exact Hreg|]. fold c in Hnode. by rewrite Hnode.
      - by eapply Hsound. }
    split; [rewrite length_take; unfold lru_maxsize; lia|by split].
Qed.

(** The label [render_node] returns is the label the body computes. *)
Lemma render_node_direct
    (nodes : gmap N TreeNode) (tree : EnvironmentTree) (opened : gset N)
    (node registered : TreeNode) :
  cache_sound rpath nodes (label_cache tree) ->
  nodes !! node_id node = Some registered ->
  with_cursor (node_is_cursor node) registered = node ->
  (render_node rpath tree opened node).2.1
  = (render_label rpath node (bool_decide (node_id node ∈ opened))
       (node_is_cursor node)
       (bool_decide (hover_node tree = Some (node_id node)))
       (has_focus tree)).1.
Proof.
  intros Hsound Hreg Hnode. unfold render_node, render_label_cached.
  destruct (lru_find _ _) as [t|] eqn:Hfind; simpl; [|reflexivity].
  pose proof (lru_find_elem _ _ _ Hfind) as Hin.
  destruct (Hsound _ _ _ _ _ _ Hin) as (node1 & H1 & ->).
  assert (node1 = registered) as -> by congruence.
  by rewrite Hnode.
Qed.

(** X13.  In a tree whose nodes carry string labels, a label drawn by
    [render_node] has bold characters only if its node is the hovered
    one; then exactly the characters of the label text as shown (the
    chosen string without the control characters rich text drops), behind
    the icon and the space, are bold. *)
Theorem only_the_hovered_node_is_bold
    (nodes : gmap N TreeNode) (tree : EnvironmentTree) (opened : gset N)
    (node registered : TreeNode) (raw : pystr) :
  string_labelled nodes ->
  cache_sound rpath nodes (label_cache tree) ->
  nodes !! node_id node = Some registered ->
  with_cursor (node_is_cursor node) registered = node ->
  node_label node = inl raw ->
  let drawn_label := (render_node rpath tree opened node).2.1 in
  let hovered := bool_decide (hover_node tree = Some (node_id node)) in
  forall i,
    Rich.bold_at drawn_label i
    = hovered && (2 <=? i)%nat
      && (i <? 2 + len (Rich.strip_control_codes
                          (label_text rpath node raw hovered)))%nat.
Proof.
  intros Hstr Hsound Hreg Hnode Hlabel drawn_label hovered i.
  subst drawn_label.
  rewrite (render_node_direct nodes tree opened node registered) by done.
  fold hovered.
  by destruct (render_label_of_string rpath node raw
                 (bool_decide (node_id node ∈ opened))
                 (node_is_cursor node) hovered (has_focus tree) Hlabel)
    as (_ & H & _).
Qed.

End TreeFacts.

(** ** Clicks and what the tree draws *)

Section DrawFacts.
Variable prefix : Environment -> pystr.
Variable rpath : Environment -> option pystr.
Variable w : World.

(** X14.  In a tree whose nodes carry string labels, after a click that
    ends well on a node with a path the tree draws the node behind a
    filled circle (followed by a space and the label text, without the
    control characters rich text drops); after any other click (no path,
    or a listing that raises) it draws the node exactly as before. *)
Theorem clicked_node_is_drawn_expanded
    (nodes : gmap N TreeNode) (tree : EnvironmentTree) (app : App)
    (node registered : TreeNode) (raw : pystr) :
  cache_sound rpath nodes (label_cache tree) ->
  nodes !! node_id node = Some registered ->
  with_cursor (node_is_cursor node) registered = node ->
  node_label node = inl raw ->
  let clicked := handle_tree_click prefix w app node in
  let before := (render_node rpath tree (expanded_nodes app) node).2.1 in
  let after := (render_node rpath tree (expanded_nodes clicked.1) node).2.1 in
  match clicked.2, opt_truthy (env_path (node_data node)) with
  | Ok _, true =>
      Rich.plain after
      = BLACK_CIRCLE :: SPACE
        :: Rich.strip_control_codes
             (label_text rpath node raw
                (bool_decide (hover_node tree = Some (node_id node))))
  | _, _ => after = before
  end.
Proof.
  intros Hsound Hreg Hnode Hlabel clicked before after.
  subst clicked before after.
  destruct (opt_truthy (env_path (node_data node))) eqn:Hp.
  - rewrite (click_outcome prefix w app node Hp).
    destruct (list_packages_for_environment prefix w (proc app)
                (node_data node)) as [s [a|e]]; simpl; [|reflexivity].
    rewrite (render_node_direct rpath nodes tree _ node registered) by done.
    rewrite bool_decide_eq_true_2 by set_solver.
    by destruct (render_label_of_string rpath node raw true
                   (node_is_cursor node)
                   (bool_decide (hover_node tree = Some (node_id node)))
                   (has_focus tree) Hlabel) as (H & _ & _).
  - unfold handle_tree_click. rewrite Hp. reflexivity.
Qed.

End DrawFacts.

(** ** Labels that are rich text *)

Section TextLabelFacts.
Variable rpath : Environment -> option pystr.

(** X15.  For a node whose raw label is a [Text], the environment is not
    consulted: the label drawn is the icon, a space and the text of the
    raw label.  A hovered rendering stylizes the raw label of the node
    itself, so when the body renders the node again, not hovered, the
    characters of the label are still bold. *)
Theorem rich_text_label_keeps_its_bold
    (node : TreeNode) (raw : Rich.Text)
    (expanded is_cursor has_focus expanded' is_cursor' has_focus' : bool) :
  node_label node = inr raw ->
  Rich.style raw = ""%string ->
  (forall i, Rich.bold_at raw i = false) ->
  let hovered := render_label rpath node expanded is_cursor true has_focus in
  let later :=
    render_label rpath hovered.2 expanded' is_cursor' false has_focus' in
  Rich.plain hovered.1 = icon expanded :: SPACE :: Rich.plain raw
  /\ (forall is_hover,
        Rich.plain (render_label rpath node expanded is_cursor is_hover
                      has_focus).1
        = icon expanded :: SPACE :: Rich.plain raw)
  /\ node_label hovered.2 = inr (Rich.stylize (Rich.StyleDef "bold") raw)
  /\ node_data hovered.2 = node_data node
  /\ (forall i, Rich.bold_at later.1 i
                = (2 <=? i)%nat && (i <? 2 + len (Rich.plain raw))%nat).
Proof.
  intros Hl Hs Hb hovered later.
  assert (Hplain : forall is_hover,
    Rich.plain (render_label rpath node expanded is_cursor is_hover
                  has_focus).1
    = icon expanded :: SPACE :: Rich.plain raw).
  { intros is_hover. unfold render_label, label_of. rewrite Hl. cbn [fst].
    unfold Rich.apply_meta.
    rewrite plain_stylize, plain_add_text, icon_prefix.
    destruct is_hover; [rewrite plain_stylize|]; reflexivity. }
  assert (Hnode : node_label hovered.2
                  = inr (Rich.stylize (Rich.StyleDef "bold") raw)).
  { subst hovered. unfold render_label, label_of. by rewrite Hl. }
  split; [apply Hplain|]. split; [exact Hplain|]. split; [exact Hnode|].
  split.
  { subst hovered. unfold render_label. by rewrite Hl. }
  intros i. subst later. unfold render_label at 1, label_of.
  rewrite Hnode. cbn [fst]. rewrite bold_at_apply_meta.
  rewrite bold_at_add_text.
  2:{ by rewrite style_stylize. }
  2:{ rewrite plain_stylize. intros He j.
      by rewrite bold_at_stylize_bold, Hb, He. }
  rewrite icon_prefix. cbn [Rich.plain Rich.bold_at Rich.spans existsb].
  change (len [icon expanded'; SPACE]) with 2%nat.
  fold (Rich.bold_at (Rich.stylize (Rich.StyleDef "bold") raw) (i - 2)).
  rewrite bold_at_stylize_bold, Hb. cbn [orb].
  destruct (Nat.leb_spec 2 i), (Nat.ltb_spec (i - 2) (len (Rich.plain raw))),
    (Nat.ltb_spec i (2 + len (Rich.plain raw))); try reflexivity; lia.
Qed.

Lemma lit_inj (a b : string) : lit a = lit b -> a = b.
Proof.
  unfold lit. intros H.
  rewrite <- (string_of_list_ascii_of_string a),
          <- (string_of_list_ascii_of_string b).
  f_equal. revert H.
  generalize (list_ascii_of_string a), (list_ascii_of_string b).
  intros la. induction la as [|x la IH]; intros [|y lb]; simpl;
    try discriminate; [reflexivity|].
  intros [= Hxy Hrest]. f_equal; [|by apply IH].
  rewrite <- (ascii_N_embedding x), <- (ascii_N_embedding y). by rewrite Hxy.
Qed.

Lemma spans_apply_meta (m : Rich.Meta) (t : Rich.Text) (c : N) (s : pystr) :
  Rich.plain t = c :: s ->
  Rich.spans (Rich.apply_meta m t)
  = Rich.spans t
    ++ [ {| Rich.span_start := 0; Rich.span_end := len (Rich.plain t);
            Rich.span_style := Rich.StyleMeta m |} ].
Proof.
  intros H. unfold Rich.apply_meta, Rich.stylize.
  cbn [Rich.style_truthy]. by rewrite H.
Qed.

(** X16.  Every rendered label carries, over its whole length, the
    metadata of its node: the identifier, the cursor flag and the action
    [click_label(id)] with the identifier in decimal; labels of nodes with
    different identifiers carry different actions. *)
Theorem label_carries_click_action
    (node node' : TreeNode)
    (expanded is_cursor is_hover has_focus : bool)
    (expanded' is_cursor' is_hover' has_focus' : bool) :
  let t := (render_label rpath node expanded is_cursor is_hover has_focus).1 in
  let t' := (render_label rpath node' expanded' is_cursor' is_hover'
               has_focus').1 in
  exists m m',
    last (Rich.spans t)
    = Some {| Rich.span_start := 0; Rich.span_end := len (Rich.plain t);
              Rich.span_style := Rich.StyleMeta m |}
    /\ last (Rich.spans t')
       = Some {| Rich.span_start := 0; Rich.span_end := len (Rich.plain t');
                 Rich.span_style := Rich.StyleMeta m' |}
    /\ Rich.meta_click m
       = lit "click_label(" ++ lit (pretty (node_id node)) ++ lit ")"
    /\ Rich.meta_tree_node m = node_id node
    /\ Rich.meta_cursor m = node_is_cursor node
    /\ (Rich.meta_click m = Rich.meta_click m' -> node_id node = node_id node').
Proof.
  intros t t'. subst t t'. unfold render_label. cbn [fst].
  eexists _, _.
  rewrite !(spans_apply_meta _ _ (icon _) (SPACE :: Rich.plain (label_of rpath _ _)))
    by (by rewrite plain_add_text, icon_prefix).
  rewrite !last_snoc. unfold Rich.apply_meta. rewrite !plain_stylize.
  split; [reflexivity|]. split; [reflexivity|].
  split; [reflexivity|]. split; [reflexivity|]. split; [reflexivity|].
  cbn [Rich.meta_click]. intros H.
  apply app_inv_head in H. apply app_inj_tail in H as [H _].
  apply lit_inj in H. by apply (inj pretty) in H.
Qed.

End TextLabelFacts.

(** ** The sample tree *)

Lemma sample_nodes_string_labelled : string_labelled SampleTree.nodes.
Proof.
  intros id node H. unfold SampleTree.nodes in H.
  apply lookup_insert_Some in H as [[<- <-]|[_ H]];
    [split; [reflexivity|by eexists]|].
  apply lookup_insert_Some in H as [[<- <-]|[_ H]];
    [split; [reflexivity|by eexists]|].
  apply lookup_singleton_Some in H as [<- <-].
  split; [reflexivity|by eexists].
Defined.

Lemma empty_cache_sound (rpath : Environment -> option pystr)
    (nodes : gmap N TreeNode) :
  cache_sound rpath nodes [].
Proof. intros id e c h f t H. by apply elem_of_nil in H. Defined.

Lemma render_node_memo_is_transparent_witness :
  let r := render_node Sample.rpath EnvironmentTree_init {[ 1 ]}
             Sample.base_node in
  r.2 = render_label Sample.rpath Sample.base_node
          (bool_decide (1 ∈ ({[ 1 ]} : gset N))) true
          (bool_decide (hover_node EnvironmentTree_init = Some 1))
          (has_focus EnvironmentTree_init)
  /\ cache_sound Sample.rpath SampleTree.nodes (label_cache r.1)
  /\ (length (label_cache r.1) <= lru_maxsize)%nat
  /\ has_focus r.1 = has_focus EnvironmentTree_init
  /\ hover_node r.1 = hover_node EnvironmentTree_init.
Proof.
  apply (render_node_memo_is_transparent Sample.rpath SampleTree.nodes
           EnvironmentTree_init {[ 1 ]} Sample.base_node Sample.base_node).
  - exact sample_nodes_string_labelled.
  - apply empty_cache_sound.
  - simpl. unfold lru_maxsize. lia.
  - reflexivity.
  - reflexivity.
Defined.

(** The second rendering of a node is answered from the memo. *)
Example second_rendering_is_remembered :
  let first := render_node Sample.rpath EnvironmentTree_init {[ 1 ]}
                 Sample.base_node in
  let second := render_node Sample.rpath first.1 {[ 1 ]} Sample.base_node in
  length (label_cache first.1) = 1%nat
  /\ length (label_cache second.1) = 1%nat
  /\ second.2 = first.2.
Proof. vm_compute. repeat split. Qed.

Lemma only_the_hovered_node_is_bold_witness :
  let tree := {| has_focus := true; hover_node := Some 1; label_cache := [] |} in
  let drawn_label := (render_node Sample.rpath tree ∅ Sample.base_node).2.1 in
  let hovered := bool_decide (hover_node tree = Some 1) in
  Rich.bold_at drawn_label 3
  = hovered && (2 <=? 3)%nat
    && (3 <? 2 + len (Rich.strip_control_codes
                        (label_text Sample.rpath Sample.base_node
                           (lit "base") hovered)))%nat.
Proof.
  exact (only_the_hovered_node_is_bold Sample.rpath SampleTree.nodes
           {| has_focus := true; hover_node := Some 1; label_cache := [] |}
           ∅ Sample.base_node Sample.base_node (lit "base")
           sample_nodes_string_labelled
           (empty_cache_sound Sample.rpath SampleTree.nodes)
           eq_refl eq_refl eq_refl 3%nat).
Defined.

Lemma clicked_node_is_drawn_expanded_witness :
  let clicked := handle_tree_click Sample.prefix Sample.world Sample.app
                   Sample.base_node in
  let before := (render_node Sample.rpath EnvironmentTree_init
                   (expanded_nodes Sample.app) Sample.base_node).2.1 in
  let after := (render_node Sample.rpath EnvironmentTree_init
                  (expanded_nodes clicked.1) Sample.base_node).2.1 in
  match clicked.2, opt_truthy (env_path (node_data Sample.base_node)) with
  | Ok _, true =>
      Rich.plain after
      = BLACK_CIRCLE :: SPACE
        :: Rich.strip_control_codes
             (label_text Sample.rpath Sample.base_node (lit "base")
                (bool_decide (hover_node EnvironmentTree_init = Some 1)))
  | _, _ => after = before
  end.
Proof.
  apply (clicked_node_is_drawn_expanded Sample.prefix Sample.rpath
           Sample.world SampleTree.nodes EnvironmentTree_init Sample.app
           Sample.base_node Sample.base_node (lit "base")).
  - apply empty_cache_sound.
  - reflexivity.
  - reflexivity.
  - reflexivity.
Defined.

Lemma rich_text_label_keeps_its_bold_witness :
  let raw := Rich.mk (lit "scratch") "" None None in
  let hovered := render_label Sample.rpath SampleTree.text_node
                   true false true false in
  let later := render_label Sample.rpath hovered.2 false false false true in
  Rich.plain hovered.1 = icon true :: SPACE :: Rich.plain raw
  /\ (forall is_hover,
        Rich.plain (render_label Sample.rpath SampleTree.text_node
                      true false is_hover false).1
        = icon true :: SPACE :: Rich.plain raw)
  /\ node_label hovered.2 = inr (Rich.stylize (Rich.StyleDef "bold") raw)
  /\ node_data hovered.2 = node_data SampleTree.text_node
  /\ (forall i, Rich.bold_at later.1 i
                = (2 <=? i)%nat && (i <? 2 + len (Rich.plain raw))%nat).
Proof.
  apply (rich_text_label_keeps_its_bold Sample.rpath SampleTree.text_node
           (Rich.mk (lit "scratch") "" None None)
           true false false false false true).
  - reflexivity.
  - reflexivity.
  - reflexivity.
Defined.

(** ** Focus *)

(** X17.  Gaining or losing focus changes nothing in what the tree draws:
    in a tree of string labels, [render_node] gives the same label for a
    node after [on_focus] as after [on_blur]. *)
Theorem focus_does_not_change_labels
    (rpath : Environment -> option pystr)
    (nodes : gmap N TreeNode) (tree : EnvironmentTree) (opened : gset N)
    (node registered : TreeNode) :
  cache_sound rpath nodes (label_cache tree) ->
  nodes !! node_id node = Some registered ->
  with_cursor (node_is_cursor node) registered = node ->
  (render_node rpath (on_focus tree) opened node).2.1
  = (render_node rpath (on_blur tree) opened node).2.1
  /\ hover_node (on_focus tree) = hover_node tree
  /\ hover_node (on_blur tree) = hover_node tree.
Proof.
  intros Hsound Hreg Hnode. split; [|by split].
  rewrite !(render_node_direct rpath nodes _ opened node registered) by done.
  reflexivity.
Qed.

Lemma focus_does_not_change_labels_witness :
  (render_node Sample.rpath (on_focus EnvironmentTree_init) ∅
     Sample.base_node).2.1
  = (render_node Sample.rpath (on_blur EnvironmentTree_init) ∅
       Sample.base_node).2.1
  /\ hover_node (on_focus EnvironmentTree_init)
     = hover_node EnvironmentTree_init
  /\ hover_node (on_blur EnvironmentTree_init)
     = hover_node EnvironmentTree_init.
Proof.
  apply (focus_does_not_change_labels Sample.rpath SampleTree.nodes
           EnvironmentTree_init ∅ Sample.base_node Sample.base_node).
  - apply empty_cache_sound.
  - reflexivity.
  - reflexivity.
Defined.

(** ** One environment under two values *)

(** X18.  The cache goes by the value of the environment, not by its
    prefix: after a listing for one value, a call for a value not yet
    listed reads the store again and builds a new list object from new
    random draws, even when both values have the same prefix; the list
    built before is left as it is. *)
Theorem unlisted_value_is_listed_afresh
    (prefix : Environment -> pystr) (w : World)
    (earlier : list Environment) (e1 e2 : Environment)
    (s1 : Process) (a1 : nat) (records : list PrefixRecord) :
  list_packages_for_environment prefix w
    (run prefix w Process_init earlier) e1 = (s1, Ok a1) ->
  lister_cache s1 !! e2 = None ->
  iter_records w (prefix e2) = Ok records ->
  let r := list_packages_for_environment prefix w s1 e2 in
  exists a2,
    r.2 = Ok a2
    /\ a2 <> a1
    /\ heap r.1 !! a2 = Some (sorted Package.name (wrap w (drawn s1) records))
    /\ heap r.1 !! a1 = heap s1 !! a1
    /\ reads_of e2 r.1 = S (reads_of e2 s1)
    /\ drawn r.1 = (drawn s1 + length records)%nat.
Proof.
  intros Hcall Hn Hi r. subst r.
  assert (Hinv1 : lister_inv prefix w s1).
  { pose proof (lister_inv_step prefix w _ e1
                  (lister_inv_run prefix w earlier _ (lister_inv_init prefix w)))
      as H. by rewrite Hcall in H. }
  pose proof (lister_ok_cached prefix w _ e1 s1 a1 Hcall) as Hc1.
  destruct (inv_cached _ _ _ Hinv1 e1 a1 Hc1) as (rs & pos & _ & Hl).
  pose proof (lookup_lt_Some _ _ _ Hl) as Hlt.
  rewrite (lister_miss_ok prefix w s1 e2 records) by done.
  exists (length (heap s1)). simpl.
  split; [reflexivity|]. split; [lia|].
  split; [by rewrite lookup_app_r, Nat.sub_diag|].
  split; [by rewrite lookup_app_l|].
  split; [|reflexivity].
  unfold reads_of. simpl. rewrite List.filter_app, length_app. simpl.
  rewrite bool_decide_eq_true_2 by reflexivity. simpl. lia.
Qed.

Lemma unlisted_value_is_listed_afresh_witness :
  let s1 := (list_packages_for_environment Sample.prefix Sample.world
               Process_init Sample.base).1 in
  let r := list_packages_for_environment Sample.prefix Sample.world s1
             SampleTree.alias in
  exists a2,
    r.2 = Ok a2
    /\ a2 <> 0%nat
    /\ heap r.1 !! a2
       = Some (sorted Package.name
                 (wrap Sample.world (drawn s1)
                    [Sample.zlib; Sample.numpy; Sample.requests]))
    /\ heap r.1 !! 0%nat = heap s1 !! 0%nat
    /\ reads_of SampleTree.alias r.1 = S (reads_of SampleTree.alias s1)
    /\ drawn r.1 = (drawn s1 + 3)%nat.
Proof.
  apply (unlisted_value_is_listed_afresh Sample.prefix Sample.world []
           Sample.base SampleTree.alias
           (list_packages_for_environment Sample.prefix Sample.world
              Process_init Sample.base).1 0%nat
           [Sample.zlib; Sample.numpy; Sample.requests]).
  - reflexivity.
  - reflexivity.
  - reflexivity.
Defined.

(** The same packages, listed under the two values, differ in their
    flags. *)
Example alias_flags_differ :
  let s1 := (list_packages_for_environment Sample.prefix Sample.world
               Process_init Sample.base).1 in
  let s2 := (list_packages_for_environment Sample.prefix Sample.world s1
               SampleTree.alias).1 in
  map Package.update_available <$> heap s2 !! 0%nat = Some [true; false; false]
  /\ map Package.update_available <$> heap s2 !! 1%nat
     = Some [false; true; true].
Proof. vm_compute. split; reflexivity. Qed.

(** ** The library edges of the model, on the samples *)

(** The colour tag of the icon is kept in its normalised spelling. *)
Example icon_style_is_normalised :
  map Rich.span_style (Rich.spans (Package._get_update_status_icon true))
  = [Rich.StyleDef "bold #db6015"]
  /\ map Rich.span_style (Rich.spans (Package._get_update_status_icon false))
     = [Rich.StyleDef "bold #43b049"].
Proof. split; reflexivity. Qed.

(** A path-like package directory is accepted like a string; any other
    value is refused with [TypeError]. *)
Example package_dir_kinds :
  let with_dir v :=
    Package.__init__
      {| rec_name := lit "zlib"; rec_version := lit "1.2.13";
         rec_fields := {[ "extracted_package_dir"%string := v ]} |} 0 in
  Package.description Sample.world (with_dir (VPath Sample.zlib_dir))
  = Ok (VStr (lit "compression library"))
  /\ Package.description Sample.world (with_dir VNone) = Raise TypeError.
Proof. vm_compute. split; reflexivity. Qed.

(** Appending an empty text adds neither characters nor spans. *)
Example empty_text_appended (t : Rich.Text) :
  Rich.add_text t (Rich.mk [] "" None None) = t.
Proof. reflexivity. Qed.
